(** * TachyFont: the CFF INDEX decoder ([tachyfont.CffIndex])

    A shallow embedding of
    [run_time/src/gae_server/www/js/tachyfont/cff_index.js] together with
    the properties of the INDEX decoder: header parsing, table length,
    element materialisation and element lookup.

    JavaScript numbers that occur here are integers far below 2^53, so
    they are modelled by [Z]; an exception is a [Throw] in [result]. *)

From Stdlib Require Import ZArith List String Ascii Bool Lia.
From Stdlib Require Import Strings.Byte DecimalString.
Import ListNotations.

Local Open Scope string_scope.
Local Open Scope list_scope.
Local Open Scope Z_scope.

(** ** Exceptions *)

(** [RangeError] is the exception [getElement] throws, with its message.
    The remaining kinds are the error kinds of the collaborators
    (binary cursor, DICT decoder) and of the specification's taxonomy;
    nothing in [cff_index.js] raises [MalformedIndex]. *)
Inductive error : Type :=
| RangeError (message : string)
| TruncatedBuffer
| InvalidArgument
| MalformedDict
| MalformedIndex.

Inductive result (A : Type) : Type :=
| Ok (a : A)
| Throw (e : error).

Arguments Ok {A} a.
Arguments Throw {A} e.

(** ** Bytes and numbers *)

Definition byte_value (b : byte) : Z := Z.of_N (Byte.to_N b).

(** Big-endian value of a byte sequence. *)
Definition be_decode (bs : list byte) : Z :=
  fold_left (fun acc b => acc * 256 + byte_value b) bs 0.

(** The decimal rendering JavaScript gives an integer when it is
    concatenated to a string (exact for magnitudes below 10^21). *)
Definition number_toString (z : Z) : string :=
  NilZero.string_of_int (Z.to_int z).

(** ** The binary cursor ([tachyfont.BinaryFontEditor]) *)

(** A [DataView]: a window of [byteLength] bytes starting at
    [byteOffset] in an [ArrayBuffer]. *)
Record DataView : Type := {
  buffer : list byte;
  byteOffset : Z;
  byteLength : Z
}.

(** The fields of the editor that [cff_index.js] touches
    ([binEd.dataView], [binEd.baseOffset], [binEd.offset]). *)
Record BinaryFontEditor : Type := {
  dataView : DataView;
  baseOffset : Z;
  offset : Z
}.

(** A cursor operation: returns a value and the moved cursor, or throws. *)
Definition Read (A : Type) : Type :=
  BinaryFontEditor -> result (A * BinaryFontEditor).

Definition ret {A} (a : A) : Read A := fun binEd => Ok (a, binEd).

Definition bind {A B} (m : Read A) (k : A -> Read B) : Read B :=
  fun binEd =>
    match m binEd with
    | Ok (a, binEd') => k a binEd'
    | Throw e => Throw e
    end.

Notation "x <- m ;; k" := (bind m (fun x => k))
  (at level 61, m at next level, right associativity).

(** [contains v pos len]: the positions [pos .. pos+len) lie inside the
    view (and the view inside its buffer). *)
Definition contains (v : DataView) (pos len : Z) : bool :=
  (0 <=? byteOffset v) && (0 <=? pos) && (0 <=? len)
  && (pos + len <=? byteLength v)
  && (byteOffset v + byteLength v <=? Z.of_nat (List.length (buffer v))).

(** The bytes at the positions [pos .. pos+len) of a view. *)
Definition slice (v : DataView) (pos len : Z) : list byte :=
  firstn (Z.to_nat len) (skipn (Z.to_nat (byteOffset v + pos)) (buffer v)).

(** [DataView.getUint8] and its siblings throw when they leave the view. *)
Definition DataView_slice (v : DataView) (pos len : Z) : result (list byte) :=
  if contains v pos len then Ok (slice v pos len) else Throw TruncatedBuffer.

(** The bytes a view exposes. *)
Definition DataView_bytes (v : DataView) : result (list byte) :=
  DataView_slice v 0 (byteLength v).

(** Modelled from the spec: [BinaryFontEditor.seek] is missing from the
    sources; "absolute seek" sets the position and reads nothing. *)
Definition seek (newOffset : Z) (binEd : BinaryFontEditor) : BinaryFontEditor :=
  {| dataView := dataView binEd;
     baseOffset := baseOffset binEd;
     offset := newOffset |}.

(** Modelled from the spec: the common part of every read of the missing
    [BinaryFontEditor]: [len] bytes at the current position, the position
    advanced past them; a read that runs past the end of the buffer is
    surfaced as [TruncatedBuffer]. A negative length is outside the
    interface: the specification does not say what the cursor does with
    one, and throwing [InvalidArgument] is the choice of this model. *)
Definition take (len : Z) : Read (list byte) :=
  fun binEd =>
    if len <? 0 then Throw InvalidArgument
    else
      match DataView_slice (dataView binEd)
              (baseOffset binEd + offset binEd) len with
      | Ok bs => Ok (bs, seek (offset binEd + len) binEd)
      | Throw e => Throw e
      end.

(** Modelled from the spec: [BinaryFontEditor.getUint8] is missing from
    the sources; "fixed-width unsigned integer read", 8 bits. *)
Definition getUint8 : Read Z :=
  bs <- take 1 ;; ret (be_decode bs).

(** Modelled from the spec: [BinaryFontEditor.getUint16] is missing from
    the sources; "fixed-width unsigned integer read", 16 bits, big-endian. *)
Definition getUint16 : Read Z :=
  bs <- take 2 ;; ret (be_decode bs).

(** Modelled from the spec: [BinaryFontEditor.getOffset] is missing from
    the sources; "variable-width unsigned offset read (1-4 bytes,
    caller-specified width)", big-endian. A width outside 1..4 is outside
    the interface: the specification does not say what the cursor does
    with one, and throwing [InvalidArgument] is the choice of this model. *)
Definition getOffset (offSize : Z) : Read Z :=
  if (1 <=? offSize) && (offSize <=? 4)
  then bs <- take offSize ;; ret (be_decode bs)
  else fun _ => Throw InvalidArgument.

(** Modelled from the spec: [BinaryFontEditor.readString] is missing from
    the sources; "fixed-length text extraction", one character per byte. *)
Definition readString (length : Z) : Read string :=
  bs <- take length ;; ret (string_of_list_byte bs).

(** Modelled from the spec: [BinaryFontEditor.readDataView] is missing
    from the sources; "fixed-length raw byte-span extraction": a view of
    the next [length] bytes of the same buffer. *)
Definition readDataView (length : Z) : Read DataView :=
  fun binEd =>
    match take length binEd with
    | Ok (_, binEd') =>
        Ok ({| buffer := buffer (dataView binEd);
               byteOffset := byteOffset (dataView binEd)
                             + baseOffset binEd + offset binEd;
               byteLength := length |}, binEd')
    | Throw e => Throw e
    end.

(** [new DataView(arrayBuffer, offset, length)] of the language: the
    window has to lie inside the buffer. *)
Definition new_DataView (arrayBuffer : list byte) (off len : Z)
  : result DataView :=
  if (0 <=? off) && (0 <=? len)
     && (off + len <=? Z.of_nat (List.length arrayBuffer))
  then Ok {| buffer := arrayBuffer; byteOffset := off; byteLength := len |}
  else Throw TruncatedBuffer.

(** What the editor sees at its position [pos]: whether [len] bytes are
    there, and which. *)
Definition readable (binEd : BinaryFontEditor) (pos len : Z) : bool :=
  contains (dataView binEd) (baseOffset binEd + pos) len.

Definition peek (binEd : BinaryFontEditor) (pos len : Z) : list byte :=
  slice (dataView binEd) (baseOffset binEd + pos) len.

(** An editor at position 0 over a buffer of its own. *)
Definition editor_over (bytes : list byte) : BinaryFontEditor :=
  {| dataView := {| buffer := bytes; byteOffset := 0;
                    byteLength := Z.of_nat (List.length bytes) |};
     baseOffset := 0;
     offset := 0 |}.

(** ** The INDEX layout, written as an encoder

    count:uint16, offSize:uint8 (omitted when count = 0), count+1 offsets
    of offSize bytes each, 1-based from the byte before the data, then
    the data. Used to state the round trip. *)

Definition byte_of_Z (z : Z) : byte :=
  match Byte.of_N (Z.to_N (z mod 256)) with
  | Some b => b
  | None => x00
  end.

Fixpoint be_encode (width : nat) (z : Z) : list byte :=
  match width with
  | O => []
  | S width' => be_encode width' (z / 256) ++ [byte_of_Z z]
  end.

Fixpoint element_offsets (first : Z) (es : list (list byte)) : list Z :=
  first ::
  match es with
  | [] => []
  | e :: es' => element_offsets (first + Z.of_nat (List.length e)) es'
  end.

Definition encode_INDEX (offSize : nat) (es : list (list byte)) : list byte :=
  match es with
  | [] => be_encode 2 0
  | _ :: _ =>
      be_encode 2 (Z.of_nat (List.length es))
      ++ be_encode 1 (Z.of_nat offSize)
      ++ flat_map (be_encode offSize) (element_offsets 1 es)
      ++ List.concat es
  end.

(** ** Sample buffers *)

(** [00 02, 01, 01 02 04, 'A', 'BC'] *)
Definition scenario_buffer : list byte :=
  [x00; x02; x01; x01; x02; x04; x41; x42; x43].

(** [00 00]: the empty INDEX. *)
Definition empty_buffer : list byte := [x00; x00].

(** count = 1, offSize = 1, offsets 2 then 1: decreasing. *)
Definition decreasing_buffer : list byte := [x00; x01; x01; x02; x01].

(** count = 1, offSize = 1, offsets 1 then 9: eight data bytes announced,
    none present. *)
Definition overlong_buffer : list byte := [x00; x01; x01; x01; x09].

(** A stand-in for the DICT decoder in the examples: the dictionary it
    builds is the view it was given. *)
Definition sample_new_CffDict (name : string) (view : DataView) : DataView :=
  view.

Definition sample_setOperators (dict : DataView)
    (operators : option (list (string * string))) : DataView :=
  dict.

Definition sample_init (dict : DataView) : result DataView := Ok dict.

(** count = 2, offSize = 1, offsets 1, 2, 9: the element 'A' is there,
    of the seven bytes of the second one none is. *)
Definition truncated_buffer : list byte :=
  [x00; x02; x01; x01; x02; x09; x41].

(** ** The demo backend: the header of a codepoint response
    ([DemoBackendService.prototype.parseCodepointHeader_]) *)

(** [new DataView(arrayBuffer)]: the view of the whole buffer. *)
Definition DataView_over (arrayBuffer : list byte) : DataView :=
  {| buffer := arrayBuffer;
     byteOffset := 0;
     byteLength := Z.of_nat (List.length arrayBuffer) |}.

(** [dataView.getUint16(pos)] (big-endian) and [dataView.getUint8(pos)]
    of the language. *)
Definition DataView_getUint16 (v : DataView) (pos : Z) : result Z :=
  match DataView_slice v pos 2 with
  | Ok bs => Ok (be_decode bs)
  | Throw e => Throw e
  end.

Definition DataView_getUint8 (v : DataView) (pos : Z) : result Z :=
  match DataView_slice v pos 1 with
  | Ok bs => Ok (be_decode bs)
  | Throw e => Throw e
  end.

(** [parseCodepointHeader_]. [tachyfont.GlyphBundleResponse] lives in
    another file of the repository: its constructor is a parameter. *)
Definition parseCodepointHeader_ {Response : Type}
    (GlyphBundleResponse :
       string -> string -> Z -> Z -> Z -> list byte -> Response)
    (glyphData : list byte) : result Response :=
  let dataView := DataView_over glyphData in
  let offset := 0 in
  match DataView_getUint16 dataView offset with
  | Ok count =>
      let offset := offset + 2 in
      match DataView_getUint8 dataView offset with
      | Ok flags =>
          let offset := offset + 1 in
          Ok (GlyphBundleResponse "1.0" "" count flags offset glyphData)
      | Throw e => Throw e
      end
  | Throw e => Throw e
  end.

(** A second stand-in for [CffDict.init]: it rejects an empty view. *)
Definition strict_init (dict : DataView) : result DataView :=
  if byteLength dict =? 0 then Throw MalformedDict else Ok dict.

(** count = 2, offSize = 1, offsets 1, 3, 3: a dictionary of two bytes
    and an empty one. *)
Definition dict_buffer : list byte :=
  [x00; x02; x01; x01; x03; x03; x1c; x0f].

(** A stand-in for the constructor of [tachyfont.GlyphBundleResponse]:
    the tuple of its arguments. *)
Definition sample_GlyphBundleResponse (version signature : string)
    (count flags offset : Z) (glyphData : list byte)
  : string * string * Z * Z * Z * list byte :=
  (version, signature, count, flags, offset, glyphData).

(** ** The INDEX decoder *)

(** [tachyfont.CffIndex.TYPE_STRING] and [tachyfont.CffIndex.TYPE_DICT]. *)
Definition TYPE_STRING : Z := 1.
Definition TYPE_DICT : Z := 2.

Section Decoder.

(** [tachyfont.CffDict] lives in another file of the repository: its
    objects, constructor and the two methods [loadDict] calls are
    parameters. [goog_DEBUG] is the compile-time flag [goog.DEBUG]. *)
Variable CffDict : Type.
Variable new_CffDict : string -> DataView -> CffDict.
Variable CffDict_setOperators :
  CffDict -> option (list (string * string)) -> CffDict.
Variable CffDict_init : CffDict -> result CffDict.
Variable goog_DEBUG : bool.

Set Default Proof Using "Type".

(** [string | DataView | tachyfont.CffDict] *)
Inductive element : Type :=
| Str (str : string)
| View (dataView : DataView)
| Dict (dict : CffDict).

(** The object [new tachyfont.CffIndex(...)] builds. *)
Record CffIndex : Type := {
  name_ : string;
  offset_ : Z;
  type_ : Z;
  isBinary_ : bool;
  dictOperators_ : option (list (string * string));
  elements_ : list element;
  count_ : Z;
  offSize_ : Z;
  offsets_ : list Z;
  tableLength_ : Z
}.

(** [this.elements_.push(e)] *)
Definition push_element (this : CffIndex) (e : element) : CffIndex :=
  {| name_ := name_ this;
     offset_ := offset_ this;
     type_ := type_ this;
     isBinary_ := isBinary_ this;
     dictOperators_ := dictOperators_ this;
     elements_ := elements_ this ++ [e];
     count_ := count_ this;
     offSize_ := offSize_ this;
     offsets_ := offsets_ this;
     tableLength_ := tableLength_ this |}.

(** [a[i]] on a JavaScript array: [None] is [undefined]. *)
Definition array_get {A} (a : list A) (i : Z) : option A :=
  if i <? 0 then None else nth_error a (Z.to_nat i).

(** The loop of the constructor, lines 89-92: [n] iterations left, each
    reads one offset and pushes it. *)
Fixpoint read_offsets (n : nat) (offSize : Z) (offsets : list Z)
  : Read (list Z) :=
  match n with
  | O => ret offsets
  | S n' =>
      elementOffset <- getOffset offSize ;;
      read_offsets n' offSize (offsets ++ [elementOffset])
  end.

(** The constructor, lines 47-97. [offsets_[count_]] is always defined
    after the loop, which has pushed count + 1 offsets (see
    [IndexTable_invariant]); the default of [nth] stands for [undefined]. *)
Definition new_CffIndex (name : string) (offset : Z) (type : Z)
    (isBinary : bool) : Read CffIndex :=
  fun binEd =>
    (count <- getUint16 ;;
     if count =? 0 then
       ret {| name_ := name; offset_ := offset; type_ := type;
              isBinary_ := isBinary; dictOperators_ := None;
              elements_ := [];
              count_ := count; offSize_ := 0; offsets_ := [];
              tableLength_ := 2 |}
     else
       offSize <- getUint8 ;;
       offsets <- read_offsets (Z.to_nat (count + 1)) offSize [] ;;
       ret {| name_ := name; offset_ := offset; type_ := type;
              isBinary_ := isBinary; dictOperators_ := None;
              elements_ := [];
              count_ := count; offSize_ := offSize; offsets_ := offsets;
              tableLength_ :=
                2 + 1 + (count + 1) * offSize
                + nth (Z.to_nat count) offsets 0 - 1 |})
      (seek offset binEd).

(** [getElement], lines 120-125. The array is only ever pushed to, so
    for an integer [index] the test [index in this.elements_] holds
    exactly for the indices of the slots the array has. *)
Definition getElement (this : CffIndex) (index : Z) : result element :=
  match array_get (elements_ this) index with
  | Some e => Ok e
  | None =>
      Throw (RangeError ("CFF " ++ name_ this ++ " INDEX: invalid index: "
                         ++ number_toString index)%string)
  end.

(** [setDictOperators], lines 134-136 (debug builds). *)
Definition setDictOperators (this : CffIndex)
    (dictOperators : list (string * string)) : CffIndex :=
  {| name_ := name_ this;
     offset_ := offset_ this;
     type_ := type_ this;
     isBinary_ := isBinary_ this;
     dictOperators_ := Some dictOperators;
     elements_ := elements_ this;
     count_ := count_ this;
     offSize_ := offSize_ this;
     offsets_ := offsets_ this;
     tableLength_ := tableLength_ this |}.

(** [getLength], lines 144-146. *)
Definition getLength (this : CffIndex) : Z := tableLength_ this.

(** A load operation mutates the object in place and may throw half-way:
    its outcome is the object as the call leaves it, and the cursor when
    the call returned (the exception when it threw). *)
Definition outcome : Type := (CffIndex * result BinaryFontEditor)%type.

(** The loop of [loadStrings], lines 157-166: [n] iterations left, [i]
    the loop variable. An [undefined] offset makes the length [NaN],
    which is no length for the cursor. *)
Fixpoint loadStrings_loop (n : nat) (i : Z) (this : CffIndex)
    (binEd : BinaryFontEditor) : outcome :=
  match n with
  | O => (this, Ok binEd)
  | S n' =>
      match array_get (offsets_ this) (i + 1), array_get (offsets_ this) i with
      | Some next, Some here =>
          let dataLength := next - here in
          if isBinary_ this then
            match readDataView dataLength binEd with
            | Ok (dataView, binEd') =>
                loadStrings_loop n' (i + 1)
                  (push_element this (View dataView)) binEd'
            | Throw e => (this, Throw e)
            end
          else
            match readString dataLength binEd with
            | Ok (str, binEd') =>
                loadStrings_loop n' (i + 1)
                  (push_element this (Str str)) binEd'
            | Throw e => (this, Throw e)
            end
      | _, _ => (this, Throw InvalidArgument)
      end
  end.

(** [dataStart] of lines 155 and 233. *)
Definition dataStart (this : CffIndex) : Z :=
  offset_ this + 2 + 1 + (count_ this + 1) * offSize_ this.

(** [loadStrings], lines 153-167. *)
Definition loadStrings (this : CffIndex) (binEd : BinaryFontEditor)
  : outcome :=
  loadStrings_loop (Z.to_nat (count_ this)) 0 this
    (seek (dataStart this) binEd).

(** The loop of [loadDict], lines 235-249. The cursor is not moved by
    the body: every view starts at the position the loop was entered at. *)
Fixpoint loadDict_loop (n : nat) (i : Z) (this : CffIndex)
    (binEd : BinaryFontEditor) : outcome :=
  match n with
  | O => (this, Ok binEd)
  | S n' =>
      match array_get (offsets_ this) (i + 1), array_get (offsets_ this) i with
      | Some next, Some here =>
          let length := next - here in
          let arrayBuffer := buffer (dataView binEd) in
          let offset := byteOffset (dataView binEd) + baseOffset binEd
                        + offset binEd in
          match new_DataView arrayBuffer offset length with
          | Ok dataView =>
              let dict := new_CffDict (name_ this ++ number_toString i)%string
                            dataView in
              let dict := if goog_DEBUG
                          then CffDict_setOperators dict (dictOperators_ this)
                          else dict in
              match CffDict_init dict with
              | Ok dict =>
                  loadDict_loop n' (i + 1) (push_element this (Dict dict))
                    binEd
              | Throw e => (this, Throw e)
              end
          | Throw e => (this, Throw e)
          end
      | _, _ => (this, Throw InvalidArgument)
      end
  end.

(** [loadDict], lines 230-250. *)
Definition loadDict (this : CffIndex) (binEd : BinaryFontEditor) : outcome :=
  loadDict_loop (Z.to_nat (count_ this)) 0 this
    (seek (dataStart this) binEd).

(** [this] with its [elements_] replaced. *)
Definition with_elements (this : CffIndex) (es : list element) : CffIndex :=
  {| name_ := name_ this;
     offset_ := offset_ this;
     type_ := type_ this;
     isBinary_ := isBinary_ this;
     dictOperators_ := dictOperators_ this;
     elements_ := es;
     count_ := count_ this;
     offSize_ := offSize_ this;
     offsets_ := offsets_ this;
     tableLength_ := tableLength_ this |}.

(** The states an INDEX object can be in: built by the constructor, then
    any number of calls of its methods, whether they return or throw. *)
Inductive IndexTable : CffIndex -> Prop :=
| IndexTable_new name offset type isBinary binEd this binEd' :
    new_CffIndex name offset type isBinary binEd = Ok (this, binEd') ->
    IndexTable this
| IndexTable_setDictOperators this dictOperators :
    IndexTable this ->
    IndexTable (setDictOperators this dictOperators)
| IndexTable_loadStrings this binEd :
    IndexTable this ->
    IndexTable (fst (loadStrings this binEd))
| IndexTable_loadDict this binEd :
    IndexTable this ->
    IndexTable (fst (loadDict this binEd)).

(** [offsets_[i]], for the indices the array has. *)
Definition offset_at (this : CffIndex) (i : Z) : Z :=
  nth (Z.to_nat i) (offsets_ this) 0.

(** What [loadStrings] is to push for element [i] when the data it reads
    starts at editor position [base + offsets_[0]]. *)
Definition loaded_element (this : CffIndex) (binEd : BinaryFontEditor)
    (base : Z) (i : Z) : element :=
  let here := offset_at this i in
  let next := offset_at this (i + 1) in
  if isBinary_ this then
    View {| buffer := buffer (dataView binEd);
            byteOffset := byteOffset (dataView binEd) + baseOffset binEd
                          + (base + here);
            byteLength := next - here |}
  else Str (string_of_list_byte (peek binEd (base + here) (next - here))).

(** The integers [i], [i+1], ..., [i+n-1]. *)
Fixpoint indices (n : nat) (i : Z) : list Z :=
  match n with
  | O => []
  | S n' => i :: indices n' (i + 1)
  end.

(** The records the two branches of the constructor build. *)
Definition empty_index (name : string) (offset type : Z) (isBinary : bool)
  : CffIndex :=
  {| name_ := name; offset_ := offset; type_ := type;
     isBinary_ := isBinary; dictOperators_ := None; elements_ := [];
     count_ := 0; offSize_ := 0; offsets_ := []; tableLength_ := 2 |}.

Definition nonempty_index (name : string) (offset type : Z) (isBinary : bool)
    (count offSize : Z) (offsets : list Z) : CffIndex :=
  {| name_ := name; offset_ := offset; type_ := type;
     isBinary_ := isBinary; dictOperators_ := None; elements_ := [];
     count_ := count; offSize_ := offSize; offsets_ := offsets;
     tableLength_ := 2 + 1 + (count + 1) * offSize
                     + nth (Z.to_nat count) offsets 0 - 1 |}.

(** Element [k] can be loaded when the data start at editor position
    [base + offsets_[0]]: both of its offsets exist, its length is not
    negative and its bytes are in the buffer. *)
Definition loadable (this : CffIndex) (binEd : BinaryFontEditor)
    (base : Z) (k : Z) : Prop :=
  0 <= k /\ k + 1 < Z.of_nat (List.length (offsets_ this)) /\
  offset_at this k <= offset_at this (k + 1) /\
  readable binEd (base + offset_at this k)
    (offset_at this (k + 1) - offset_at this k) = true.

(** The table the constructor builds over [scenario_buffer]. *)
Definition scenario_index : CffIndex :=
  nonempty_index "String" 0 TYPE_STRING false 2 1 [1; 2; 4].

(** The exception of [getElement], line 124. *)
Definition invalid_index (this : CffIndex) (index : Z) : error :=
  RangeError ("CFF " ++ name_ this ++ " INDEX: invalid index: "
              ++ number_toString index)%string.

(** The view [loadDict] builds for element [i], lines 239-241: it
    starts where the cursor stands, which is [dataStart] all through the
    loop. *)
Definition dict_view (this : CffIndex) (binEd : BinaryFontEditor) (i : Z)
  : DataView :=
  {| buffer := buffer (dataView binEd);
     byteOffset := byteOffset (dataView binEd) + baseOffset binEd
                   + dataStart this;
     byteLength := offset_at this (i + 1) - offset_at this i |}.

(** What [loadDict] does with the view of element [i], lines 243-247. *)
Definition build_dict (this : CffIndex) (i : Z) (view : DataView)
  : result CffDict :=
  let dict := new_CffDict (name_ this ++ number_toString i)%string view in
  let dict := if goog_DEBUG
              then CffDict_setOperators dict (dictOperators_ this)
              else dict in
  CffDict_init dict.

(** The bytes a loaded string or view stands for. *)
Definition element_bytes (e : element) : option (list byte) :=
  match e with
  | Str str => Some (list_byte_of_string str)
  | View view =>
      match DataView_bytes view with
      | Ok bs => Some bs
      | Throw _ => None
      end
  | Dict _ => None
  end.

(** The bytes of element [i] as [loadStrings] finds them. *)
Definition loaded_bytes (this : CffIndex) (binEd : BinaryFontEditor)
    (base : Z) (i : Z) : list byte :=
  peek binEd (base + offset_at this i)
    (offset_at this (i + 1) - offset_at this i).

(** The read of one iteration of [loadStrings], lines 159-165, with the
    element it yields. *)
Definition read_element (this : CffIndex) (dataLength : Z)
  : Read element :=
  fun binEd =>
    if isBinary_ this then
      match readDataView dataLength binEd with
      | Ok (dataView, binEd') => Ok (View dataView, binEd')
      | Throw e => Throw e
      end
    else
      match readString dataLength binEd with
      | Ok (str, binEd') => Ok (Str str, binEd')
      | Throw e => Throw e
      end.

(** What [loadStrings] pushes on a table: views when it is binary, strings
    when it is not. *)
Definition loaded_kind (this : CffIndex) (e : element) : Prop :=
  if isBinary_ this then exists view, e = View view
  else exists str, e = Str str.

(** One iteration of [loadDict] that goes through, with the cursor at
    [binEd]: the two offsets of element [k] exist, the view of
    offsets[k+1] - offsets[k] bytes from the cursor on lies in the buffer,
    and the dictionary built from it is [dict]. *)
Definition dict_built (this : CffIndex) (binEd : BinaryFontEditor)
    (k : Z) (dict : CffDict) : Prop :=
  let view := {| buffer := buffer (dataView binEd);
                 byteOffset := byteOffset (dataView binEd)
                               + baseOffset binEd + offset binEd;
                 byteLength := offset_at this (k + 1) - offset_at this k |} in
  0 <= k /\ k + 1 < Z.of_nat (List.length (offsets_ this)) /\
  new_DataView (buffer (dataView binEd))
    (byteOffset (dataView binEd) + baseOffset binEd + offset binEd)
    (offset_at this (k + 1) - offset_at this k) = Ok view /\
  build_dict this k view = Ok dict.

(** The window of a view lies in its buffer: the condition under which
    [new DataView] returns. *)
Definition view_in_buffer (view : DataView) : Prop :=
  0 <= byteOffset view /\ 0 <= byteLength view /\
  byteOffset view + byteLength view <= Z.of_nat (List.length (buffer view)).

(** One iteration of [loadDict] that throws [e], with the cursor at
    [binEd]: either the view of element [k] leaves the buffer and [e] is
    what [new DataView] throws on it, line 241, or the view lies in the
    buffer and [e] is what the DICT decoder throws on it, line 247. *)
Definition dict_stops (this : CffIndex) (binEd : BinaryFontEditor)
    (k : Z) (e : error) : Prop :=
  let view := {| buffer := buffer (dataView binEd);
                 byteOffset := byteOffset (dataView binEd)
                               + baseOffset binEd + offset binEd;
                 byteLength := offset_at this (k + 1) - offset_at this k |} in
  (~ view_in_buffer view /\
   new_DataView (buffer view) (byteOffset view) (byteLength view) = Throw e)
  \/ (view_in_buffer view /\ build_dict this k view = Throw e).

(** ** The cursor: what a read returns and when it succeeds *)

Lemma seek_seek p q binEd : seek p (seek q binEd) = seek p binEd.
Proof. reflexivity. Qed.

Lemma seek_offset binEd : seek (offset binEd) binEd = binEd.
Proof. destruct binEd; reflexivity. Qed.

Lemma seek_same_buffer p c1 c2 :
  dataView c1 = dataView c2 -> baseOffset c1 = baseOffset c2 ->
  seek p c1 = seek p c2.
Proof. unfold seek; intros -> ->; reflexivity. Qed.

Lemma take_Ok len binEd bs binEd' :
  take len binEd = Ok (bs, binEd') <->
  0 <= len /\ readable binEd (offset binEd) len = true /\
  bs = peek binEd (offset binEd) len /\
  binEd' = seek (offset binEd + len) binEd.
Proof.
  unfold take, DataView_slice, readable, peek.
  destruct (Z.ltb_spec len 0) as [Hneg | Hpos].
  - split; [discriminate | lia].
  - destruct (contains _ _ _); split.
    + intros [= <- <-]; auto.
    + intros (_ & _ & -> & ->); reflexivity.
    + discriminate.
    + intros (_ & [=] & _).
Qed.

Lemma take_Throw len binEd e :
  take len binEd = Throw e -> e = TruncatedBuffer \/ e = InvalidArgument.
Proof.
  unfold take, DataView_slice.
  destruct (len <? 0); [intros [= <-]; auto |].
  destruct (contains _ _ _); [discriminate | intros [= <-]; auto].
Qed.

Lemma take_then_Ok {A} (f : list byte -> A) len binEd v binEd' :
  (bs <- take len ;; ret (f bs)) binEd = Ok (v, binEd') <->
  0 <= len /\ readable binEd (offset binEd) len = true /\
  v = f (peek binEd (offset binEd) len) /\
  binEd' = seek (offset binEd + len) binEd.
Proof.
  unfold bind, ret.
  destruct (take len binEd) as [[bs c] | e] eqn:E.
  - apply take_Ok in E as (Hlen & Hr & -> & ->). split.
    + intros [= <- <-]; auto.
    + intros (_ & _ & -> & ->); reflexivity.
  - split; [discriminate |].
    intros (Hlen & Hr & _).
    assert (H : take len binEd
                = Ok (peek binEd (offset binEd) len,
                      seek (offset binEd + len) binEd))
      by (apply take_Ok; auto).
    congruence.
Qed.

Lemma take_then_Throw {A} (f : list byte -> A) len binEd e :
  (bs <- take len ;; ret (f bs)) binEd = Throw e ->
  e = TruncatedBuffer \/ e = InvalidArgument.
Proof.
  unfold bind, ret.
  destruct (take len binEd) as [[bs c] | e'] eqn:E; [discriminate |].
  intros [= <-]. eapply take_Throw; eassumption.
Qed.

Lemma getUint16_Ok binEd v binEd' :
  getUint16 binEd = Ok (v, binEd') <->
  readable binEd (offset binEd) 2 = true /\
  v = be_decode (peek binEd (offset binEd) 2) /\
  binEd' = seek (offset binEd + 2) binEd.
Proof.
  unfold getUint16. rewrite take_then_Ok. intuition lia.
Qed.

Lemma getUint8_Ok binEd v binEd' :
  getUint8 binEd = Ok (v, binEd') <->
  readable binEd (offset binEd) 1 = true /\
  v = be_decode (peek binEd (offset binEd) 1) /\
  binEd' = seek (offset binEd + 1) binEd.
Proof.
  unfold getUint8. rewrite take_then_Ok. intuition lia.
Qed.

Lemma getOffset_Ok offSize binEd v binEd' :
  getOffset offSize binEd = Ok (v, binEd') <->
  1 <= offSize <= 4 /\
  readable binEd (offset binEd) offSize = true /\
  v = be_decode (peek binEd (offset binEd) offSize) /\
  binEd' = seek (offset binEd + offSize) binEd.
Proof.
  unfold getOffset.
  destruct (Z.leb_spec 1 offSize); destruct (Z.leb_spec offSize 4); cbn [andb];
    try (split; [discriminate | lia]).
  rewrite take_then_Ok. intuition lia.
Qed.

Lemma getOffset_Throw offSize binEd e :
  getOffset offSize binEd = Throw e ->
  e = TruncatedBuffer \/ e = InvalidArgument.
Proof.
  unfold getOffset.
  destruct ((1 <=? offSize) && (offSize <=? 4)).
  - apply take_then_Throw.
  - intros [= <-]; auto.
Qed.

Lemma readString_Ok len binEd str binEd' :
  readString len binEd = Ok (str, binEd') <->
  0 <= len /\ readable binEd (offset binEd) len = true /\
  str = string_of_list_byte (peek binEd (offset binEd) len) /\
  binEd' = seek (offset binEd + len) binEd.
Proof. unfold readString. apply take_then_Ok. Qed.

Lemma readDataView_Ok len binEd v binEd' :
  readDataView len binEd = Ok (v, binEd') <->
  0 <= len /\ readable binEd (offset binEd) len = true /\
  v = {| buffer := buffer (dataView binEd);
         byteOffset := byteOffset (dataView binEd) + baseOffset binEd
                       + offset binEd;
         byteLength := len |} /\
  binEd' = seek (offset binEd + len) binEd.
Proof.
  unfold readDataView.
  destruct (take len binEd) as [[bs c] | e] eqn:E.
  - apply take_Ok in E as (Hlen & Hr & -> & ->). split.
    + intros [= <- <-]; auto.
    + intros (_ & _ & -> & ->); reflexivity.
  - split; [discriminate |].
    intros (Hlen & Hr & _).
    assert (H : take len binEd
                = Ok (peek binEd (offset binEd) len,
                      seek (offset binEd + len) binEd))
      by (apply take_Ok; auto).
    congruence.
Qed.

(** ** Arrays and index ranges *)

Lemma indices_length n i : List.length (indices n i) = n.
Proof. revert i; induction n; intros; cbn; auto. Qed.

Lemma indices_In n i k : In k (indices n i) <-> i <= k < i + Z.of_nat n.
Proof.
  revert i; induction n as [| n IH]; intros i; cbn [indices In].
  - lia.
  - rewrite IH. lia.
Qed.

Lemma indices_app n m i :
  indices (n + m) i = indices n i ++ indices m (i + Z.of_nat n).
Proof.
  revert i; induction n as [| n IH]; intros i; cbn [indices Nat.add app].
  - f_equal; lia.
  - rewrite IH. do 3 f_equal. lia.
Qed.

Lemma indices_nth_error n i j :
  (j < n)%nat -> nth_error (indices n i) j = Some (i + Z.of_nat j).
Proof.
  revert i j; induction n as [| n IH]; intros i j Hj; [lia |].
  destruct j as [| j]; cbn [indices nth_error].
  - f_equal; lia.
  - rewrite IH by lia. f_equal; lia.
Qed.

Lemma array_get_Some {A} (a : list A) i x :
  array_get a i = Some x <-> 0 <= i /\ nth_error a (Z.to_nat i) = Some x.
Proof.
  unfold array_get. destruct (Z.ltb_spec i 0); intuition (try lia; try discriminate).
Qed.

Lemma array_get_in_range {A} (a : list A) i :
  0 <= i < Z.of_nat (List.length a) -> exists x, array_get a i = Some x.
Proof.
  intros Hi. destruct (nth_error a (Z.to_nat i)) as [x |] eqn:E.
  - exists x. apply array_get_Some; split; [lia | assumption].
  - apply nth_error_None in E. lia.
Qed.

Lemma array_get_out_of_range {A} (a : list A) i :
  ~ 0 <= i < Z.of_nat (List.length a) -> array_get a i = None.
Proof.
  intros Hi. unfold array_get. destruct (Z.ltb_spec i 0); [reflexivity |].
  apply nth_error_None. lia.
Qed.

Lemma array_get_nth (a : list Z) i x :
  array_get a i = Some x -> nth (Z.to_nat i) a 0 = x.
Proof.
  intros H. apply array_get_Some in H as [_ H].
  now apply nth_error_nth.
Qed.

(** ** The constructor *)

Lemma readable_seek p binEd pos len :
  readable (seek p binEd) pos len = readable binEd pos len.
Proof. reflexivity. Qed.

Lemma peek_seek p binEd pos len :
  peek (seek p binEd) pos len = peek binEd pos len.
Proof. reflexivity. Qed.

(** The offsets loop: it succeeds exactly when every offset is readable
    (and the width is one the cursor accepts), and then it has pushed the
    big-endian value of each [offSize]-byte group. The cursor stands at
    [start + i * offSize] with [n] offsets to go. *)
Lemma read_offsets_Ok n :
  forall offSize acc binEd i start offs binEd',
    offset binEd = start + i * offSize ->
    read_offsets n offSize acc binEd = Ok (offs, binEd') <->
    (n = O \/ 1 <= offSize <= 4) /\
    Forall (fun k => readable binEd (start + k * offSize) offSize = true)
      (indices n i) /\
    offs = acc ++ map (fun k => be_decode
                                  (peek binEd (start + k * offSize) offSize))
                    (indices n i) /\
    binEd' = seek (start + (i + Z.of_nat n) * offSize) binEd.
Proof.
  induction n as [| n IH]; intros offSize acc binEd i start offs binEd' Hpos.
  - cbn [read_offsets indices map]. unfold ret. rewrite app_nil_r.
    replace (start + (i + Z.of_nat 0) * offSize) with (offset binEd) by lia.
    rewrite seek_offset. split.
    + intros [= <- <-]; auto.
    + intros (_ & _ & -> & ->); reflexivity.
  - cbn [read_offsets indices map]. unfold bind.
    destruct (getOffset offSize binEd) as [[v c1] | e] eqn:E.
    + apply getOffset_Ok in E as (Hw & Hr & -> & ->).
      rewrite (IH offSize _ _ (i + 1) start offs binEd')
        by (cbn [offset seek]; lia).
      rewrite Hpos in *.
      rewrite Forall_cons_iff, <- app_assoc. cbn [app].
      replace (start + (i + 1 + Z.of_nat n) * offSize)
        with (start + (i + Z.of_nat (S n)) * offSize) by lia.
      rewrite seek_seek. intuition auto.
    + split; [discriminate |].
      intros ([? | Hw] & Hall & _); [discriminate |].
      apply Forall_cons_iff in Hall as [Hr _].
      assert (H : getOffset offSize binEd
                  = Ok (be_decode (peek binEd (offset binEd) offSize),
                        seek (offset binEd + offSize) binEd)).
      { apply getOffset_Ok. rewrite Hpos. auto. }
      congruence.
Qed.

Lemma read_offsets_Throw n :
  forall offSize acc binEd e,
    read_offsets n offSize acc binEd = Throw e ->
    e = TruncatedBuffer \/ e = InvalidArgument.
Proof.
  induction n as [| n IH]; intros offSize acc binEd e; cbn [read_offsets].
  - discriminate.
  - unfold bind.
    destruct (getOffset offSize binEd) as [[v c1] | e'] eqn:E.
    + apply IH.
    + intros [= <-]. eapply getOffset_Throw; eassumption.
Qed.

Lemma new_CffIndex_unfold name off type isBinary binEd :
  new_CffIndex name off type isBinary binEd =
  match getUint16 (seek off binEd) with
  | Ok (count, c1) =>
      if count =? 0 then Ok (empty_index name off type isBinary, c1)
      else
        match getUint8 c1 with
        | Ok (offSize, c2) =>
            match read_offsets (Z.to_nat (count + 1)) offSize [] c2 with
            | Ok (offsets, c3) =>
                Ok (nonempty_index name off type isBinary
                      count offSize offsets, c3)
            | Throw e => Throw e
            end
        | Throw e => Throw e
        end
  | Throw e => Throw e
  end.
Proof.
  unfold new_CffIndex, bind.
  destruct (getUint16 (seek off binEd)) as [[count c1] | e]; [| reflexivity].
  destruct (Z.eqb_spec count 0) as [-> | Hc]; [reflexivity |].
  destruct (getUint8 c1) as [[offSize c2] | e]; [| reflexivity].
  destruct (read_offsets _ _ _ _) as [[offsets c3] | e]; reflexivity.
Qed.

(** ** Big-endian values *)

Lemma byte_value_range b : 0 <= byte_value b < 256.
Proof.
  unfold byte_value. pose proof (Byte.to_N_bounded b). lia.
Qed.

Lemma be_decode_from acc bs :
  fold_left (fun a b => a * 256 + byte_value b) bs acc
  = acc * 256 ^ Z.of_nat (List.length bs) + be_decode bs.
Proof.
  unfold be_decode. revert acc.
  induction bs as [| b bs IH]; intros acc; cbn [fold_left List.length].
  - cbn. lia.
  - rewrite IH, (IH (0 * 256 + byte_value b)).
    rewrite Nat2Z.inj_succ, Z.pow_succ_r by lia. lia.
Qed.

Lemma be_decode_app a b :
  be_decode (a ++ b)
  = be_decode a * 256 ^ Z.of_nat (List.length b) + be_decode b.
Proof.
  unfold be_decode at 1. rewrite fold_left_app.
  fold (be_decode a). apply be_decode_from.
Qed.

Lemma be_decode_range bs :
  0 <= be_decode bs < 256 ^ Z.of_nat (List.length bs).
Proof.
  induction bs as [| b bs IH] using rev_ind.
  - cbn. lia.
  - rewrite be_decode_app, length_app. cbn [List.length].
    replace (be_decode [b]) with (byte_value b) by (cbn; lia).
    pose proof (byte_value_range b).
    rewrite Nat2Z.inj_add, Z.pow_add_r by lia.
    change (256 ^ Z.of_nat 1) with 256. nia.
Qed.

(** A successful construction over a non-empty INDEX, in terms of the
    bytes of the buffer. *)
Lemma new_CffIndex_nonempty name off type isBinary binEd this binEd' :
  new_CffIndex name off type isBinary binEd = Ok (this, binEd') ->
  count_ this <> 0 ->
  let count := be_decode (peek binEd off 2) in
  let offSize := be_decode (peek binEd (off + 2) 1) in
  readable binEd off 2 = true /\
  readable binEd (off + 2) 1 = true /\
  1 <= count /\
  1 <= offSize <= 4 /\
  Forall (fun k => readable binEd (off + 3 + k * offSize) offSize = true)
    (indices (Z.to_nat (count + 1)) 0) /\
  this = nonempty_index name off type isBinary count offSize
           (map (fun k => be_decode
                            (peek binEd (off + 3 + k * offSize) offSize))
              (indices (Z.to_nat (count + 1)) 0)) /\
  binEd' = seek (off + 3 + (count + 1) * offSize) binEd.
Proof.
  rewrite new_CffIndex_unfold.
  destruct (getUint16 _) as [[count c1] | e] eqn:E16; [| discriminate].
  apply getUint16_Ok in E16 as (Hr16 & -> & ->).
  cbn [offset seek] in *. rewrite readable_seek, !peek_seek in *.
  destruct (Z.eqb_spec (be_decode (peek binEd off 2)) 0) as [Hz | Hnz].
  { intros [= <- <-]. cbn. congruence. }
  destruct (getUint8 _) as [[offSize c2] | e] eqn:E8; [| discriminate].
  apply getUint8_Ok in E8 as (Hr8 & -> & ->).
  cbn [offset seek] in *. rewrite readable_seek, !peek_seek, ?seek_seek in *.
  destruct (read_offsets _ _ _ _) as [[offsets c3] | e] eqn:Eoff;
    [| discriminate].
  pose proof (be_decode_range (peek binEd off 2)) as [Hc0 _].
  apply (read_offsets_Ok _ _ _ _ 0 (off + 3)) in Eoff;
    [| cbn [offset seek]; lia].
  destruct Eoff as (Hw & Hall & -> & ->).
  intros [= <- <-] _. cbn zeta.
  destruct Hw as [Hw | Hw]; [lia |].
  repeat split; try assumption; try lia.
  rewrite seek_seek. f_equal. lia.
Qed.

Lemma new_CffIndex_empty name off type isBinary binEd this binEd' :
  new_CffIndex name off type isBinary binEd = Ok (this, binEd') ->
  count_ this = 0 ->
  this = empty_index name off type isBinary /\
  binEd' = seek (off + 2) binEd /\
  be_decode (peek binEd off 2) = 0.
Proof.
  rewrite new_CffIndex_unfold.
  destruct (getUint16 _) as [[count c1] | e] eqn:E16; [| discriminate].
  apply getUint16_Ok in E16 as (Hr16 & -> & ->).
  cbn [offset seek] in *. rewrite !peek_seek in *.
  destruct (Z.eqb_spec (be_decode (peek binEd off 2)) 0) as [Hz | Hnz].
  { intros [= <- <-] _. auto. }
  destruct (getUint8 _) as [[offSize c2] | e]; [| discriminate].
  destruct (read_offsets _ _ _ _) as [[offsets c3] | e]; [| discriminate].
  intros [= <- <-]. unfold nonempty_index; cbn [count_]. intros Hz. contradiction.
Qed.

(** C1: for a table constructed over a buffer whose header decodes to
    count >= 1, [offSize_] is the byte after the count, [offsets_] holds
    the count+1 big-endian integers of that width that follow, and
    [tableLength_], which [getLength] returns, is
    2 + 1 + (count+1)*offSize + (offsets[count] - 1). *)
Theorem tableLength_of_nonempty_index
    name off type isBinary binEd this binEd' :
  new_CffIndex name off type isBinary binEd = Ok (this, binEd') ->
  1 <= count_ this ->
  count_ this = be_decode (peek binEd off 2) /\
  offSize_ this = be_decode (peek binEd (off + 2) 1) /\
  List.length (offsets_ this) = Z.to_nat (count_ this + 1) /\
  (forall k, 0 <= k <= count_ this ->
     readable binEd (off + 3 + k * offSize_ this) (offSize_ this) = true /\
     array_get (offsets_ this) k
     = Some (be_decode (peek binEd (off + 3 + k * offSize_ this)
                          (offSize_ this)))) /\
  exists last,
    array_get (offsets_ this) (count_ this) = Some last /\
    tableLength_ this
    = 2 + 1 + (count_ this + 1) * offSize_ this + (last - 1) /\
    getLength this
    = 2 + 1 + (count_ this + 1) * offSize_ this + (last - 1).
Proof.
  intros Hnew Hcount.
  destruct (new_CffIndex_nonempty _ _ _ _ _ _ _ Hnew ltac:(lia))
    as (_ & _ & Hc & Hw & Hall & -> & _).
  unfold nonempty_index, getLength; cbn [count_ offSize_ offsets_ tableLength_].
  set (count := be_decode (peek binEd off 2)) in *.
  set (offSize := be_decode (peek binEd (off + 2) 1)) in *.
  rewrite Forall_forall in Hall.
  set (f := fun k => be_decode (peek binEd (off + 3 + k * offSize) offSize)).
  assert (Hget : forall k, 0 <= k <= count ->
            array_get (map f (indices (Z.to_nat (count + 1)) 0)) k
            = Some (f k)).
  { intros k Hk. apply array_get_Some. split; [lia |].
    rewrite nth_error_map, indices_nth_error by lia.
    cbn. f_equal. f_equal. lia. }
  repeat split.
  - now rewrite length_map, indices_length.
  - apply Hall, indices_In. lia.
  - now apply Hget.
  - exists (f count). split; [apply Hget; lia |].
    rewrite (array_get_nth _ count (f count)) by (apply Hget; lia).
    split; lia.
Qed.

Lemma new_CffIndex_over_empty name off type isBinary binEd :
  readable binEd off 2 = true ->
  be_decode (peek binEd off 2) = 0 ->
  new_CffIndex name off type isBinary binEd
  = Ok (empty_index name off type isBinary, seek (off + 2) binEd).
Proof.
  intros Hr Hz.
  rewrite new_CffIndex_unfold.
  assert (H16 : getUint16 (seek off binEd) = Ok (0, seek (off + 2) binEd)).
  { apply getUint16_Ok. cbn [offset seek].
    rewrite readable_seek, peek_seek, seek_seek. auto. }
  rewrite H16. reflexivity.
Qed.

(** C2: when the two bytes at the given position decode to count = 0,
    construction returns after the count field: the cursor has moved by
    two bytes only, and the table has offSize 0, no offsets, length 2. *)
Theorem empty_index_construction name off type isBinary binEd :
  readable binEd off 2 = true ->
  be_decode (peek binEd off 2) = 0 ->
  exists this,
    new_CffIndex name off type isBinary binEd
    = Ok (this, seek (off + 2) binEd) /\
    count_ this = 0 /\ offSize_ this = 0 /\ offsets_ this = [] /\
    tableLength_ this = 2 /\ getLength this = 2 /\ elements_ this = [].
Proof.
  intros Hr Hz.
  exists (empty_index name off type isBinary).
  split; [| repeat split].
  now apply new_CffIndex_over_empty.
Qed.

(** ** loadStrings *)

Lemma with_elements_self this : with_elements this (elements_ this) = this.
Proof. destruct this; reflexivity. Qed.

Lemma loadable_offsets this binEd base k :
  loadable this binEd base k ->
  array_get (offsets_ this) (k + 1) = Some (offset_at this (k + 1)) /\
  array_get (offsets_ this) k = Some (offset_at this k).
Proof.
  intros (Hk & Hlen & _).
  split; apply array_get_Some; (split; [lia |]);
    apply nth_error_nth'; lia.
Qed.

(** One iteration of the loop has pushed [el], the element the loop is to
    push for [i]: what is left is the induction hypothesis at [i + 1]. *)
Ltac loop_continues IH Hpos Hel :=
  match type of Hel with
  | ?el = loaded_element ?this ?binEd ?base ?i =>
      rewrite (IH _ _ _ base)
        by (cbn [offset seek]; unfold offset_at in Hpos |- *;
            cbn [offsets_ push_element]; lia);
      rewrite <- Hel;
      change (loadable (push_element this el)
                (seek (offset binEd
                       + (offset_at this (i + 1) - offset_at this i))
                   binEd) base)
        with (loadable this binEd base);
      change (loaded_element (push_element this el)
                (seek (offset binEd
                       + (offset_at this (i + 1) - offset_at this i))
                   binEd) base)
        with (loaded_element this binEd base);
      change (offset_at (push_element this el)) with (offset_at this);
      unfold loadable at 2; rewrite <- Hpos;
      cbn [elements_ push_element with_elements name_ offset_ type_
           isBinary_ dictOperators_ count_ offSize_ offsets_ tableLength_];
      rewrite <- app_assoc; cbn [app]; rewrite seek_seek;
      intuition (auto; lia)
  end.

(** The read of an iteration threw although the element is loadable:
    [read_Ok] says the read returns. *)
Ltac loop_cannot_stop Hpos Er read_Ok :=
  split; [discriminate |];
  let Hl := fresh "Hl" in
  let Hle := fresh "Hle" in
  let Hr := fresh "Hr" in
  intros ((Hl & _) & _); unfold loadable in Hl;
  destruct Hl as (_ & _ & Hle & Hr); rewrite <- Hpos in Hr;
  match type of Er with
  | ?read ?len ?binEd = Throw _ =>
      let H := fresh "H" in
      assert (H : exists v c, read len binEd = Ok (v, c))
        by (eexists; eexists; apply read_Ok;
            repeat split; [lia | exact Hr]);
      destruct H as (? & ? & H); congruence
  end.

(** The loop of [loadStrings] returns exactly when every remaining element
    is loadable; it has then pushed the remaining elements in order and
    left the cursor after the last of them. The cursor stands at
    [base + offsets_[i]] with [n] elements to go. *)
Lemma loadStrings_loop_Ok n :
  forall i this binEd base this' binEd',
    offset binEd = base + offset_at this i ->
    loadStrings_loop n i this binEd = (this', Ok binEd') <->
    Forall (loadable this binEd base) (indices n i) /\
    this' = with_elements this
              (elements_ this
               ++ map (loaded_element this binEd base) (indices n i)) /\
    binEd' = seek (base + offset_at this (i + Z.of_nat n)) binEd.
Proof.
  clear new_CffDict CffDict_setOperators CffDict_init goog_DEBUG.
  induction n as [| n IH]; intros i this binEd base this' binEd' Hpos.
  - cbn [loadStrings_loop indices map].
    rewrite app_nil_r, with_elements_self.
    replace (i + Z.of_nat 0) with i by lia.
    rewrite <- Hpos, seek_offset. split.
    + intros [= <- <-]; auto.
    + intros (_ & -> & ->); reflexivity.
  - cbn [loadStrings_loop indices map]. rewrite Forall_cons_iff.
    replace (i + Z.of_nat (S n)) with (i + 1 + Z.of_nat n) by lia.
    destruct (array_get (offsets_ this) (i + 1)) as [next |] eqn:En;
      [destruct (array_get (offsets_ this) i) as [here |] eqn:Eh |].
    + assert (Hh : offset_at this i = here) by (now apply array_get_nth).
      assert (Hn : offset_at this (i + 1) = next) by (now apply array_get_nth).
      assert (Hi : 0 <= i) by (apply array_get_Some in Eh; tauto).
      assert (Hlen : i + 1 < Z.of_nat (List.length (offsets_ this))).
      { apply array_get_Some in En as [_ En].
        assert (H : nth_error (offsets_ this) (Z.to_nat (i + 1)) <> None)
          by congruence.
        apply nth_error_Some in H. lia. }
      subst here next. cbv zeta.
      destruct (isBinary_ this) eqn:Eb.
      * destruct (readDataView _ binEd) as [[view c1] | e] eqn:Er.
        -- apply readDataView_Ok in Er as (Hnonneg & Hr & Hview & ->).
           assert (Hel : View view = loaded_element this binEd base i).
           { unfold loaded_element. cbv zeta.
             rewrite Eb, Hview, <- Hpos. reflexivity. }
           loop_continues IH Hpos Hel.
        -- loop_cannot_stop Hpos Er readDataView_Ok.
      * destruct (readString _ binEd) as [[str c1] | e] eqn:Er.
        -- apply readString_Ok in Er as (Hnonneg & Hr & Hstr & ->).
           assert (Hel : Str str = loaded_element this binEd base i).
           { unfold loaded_element. cbv zeta.
             rewrite Eb, Hstr, <- Hpos. reflexivity. }
           loop_continues IH Hpos Hel.
        -- loop_cannot_stop Hpos Er readString_Ok.
    + split; [discriminate |].
      intros ((Hl & _) & _). apply loadable_offsets in Hl as [_ Hl]. congruence.
    + split; [discriminate |].
      intros ((Hl & _) & _). apply loadable_offsets in Hl as [Hl _]. congruence.
Qed.

Lemma loadStrings_loop_pushes n :
  forall i this binEd,
  exists new,
    fst (loadStrings_loop n i this binEd)
    = with_elements this (elements_ this ++ new) /\
    (List.length new <= n)%nat.
Proof.
  induction n as [| n IH]; intros i this binEd; cbn [loadStrings_loop].
  - exists []. rewrite app_nil_r, with_elements_self. auto.
  - assert (Hstop : exists new : list element,
              this = with_elements this (elements_ this ++ new) /\
              (List.length new <= S n)%nat).
    { exists []. rewrite app_nil_r, with_elements_self. cbn; split; [auto | lia]. }
    assert (Hgo : forall e c,
              exists new : list element,
                fst (loadStrings_loop n (i + 1) (push_element this e) c)
                = with_elements this (elements_ this ++ new) /\
                (List.length new <= S n)%nat).
    { intros e c. destruct (IH (i + 1) (push_element this e) c)
        as (new & -> & Hlen).
      exists (e :: new). cbn [elements_ push_element with_elements].
      rewrite <- app_assoc. cbn [app List.length]. split; [reflexivity | lia]. }
    destruct (array_get _ (i + 1)); [| exact Hstop].
    destruct (array_get _ i); [| exact Hstop]. cbv zeta.
    destruct (isBinary_ this).
    + destruct (readDataView _ _) as [[v c] | e]; [apply Hgo | exact Hstop].
    + destruct (readString _ _) as [[v c] | e]; [apply Hgo | exact Hstop].
Qed.

Lemma loadDict_loop_pushes n :
  forall i this binEd,
  exists new,
    fst (loadDict_loop n i this binEd)
    = with_elements this (elements_ this ++ new) /\
    (List.length new <= n)%nat.
Proof.
  induction n as [| n IH]; intros i this binEd; cbn [loadDict_loop].
  - exists []. rewrite app_nil_r, with_elements_self. auto.
  - assert (Hstop : exists new : list element,
              this = with_elements this (elements_ this ++ new) /\
              (List.length new <= S n)%nat).
    { exists []. rewrite app_nil_r, with_elements_self. cbn; split; [auto | lia]. }
    destruct (array_get _ (i + 1)); [| exact Hstop].
    destruct (array_get _ i); [| exact Hstop]. cbv zeta.
    destruct (new_DataView _ _ _) as [v | e]; [| exact Hstop].
    destruct (CffDict_init _) as [d | e]; [| exact Hstop].
    destruct (IH (i + 1) (push_element this (Dict d)) binEd)
      as (new & -> & Hlen).
    exists (Dict d :: new). cbn [elements_ push_element with_elements].
    rewrite <- app_assoc. cbn [app List.length]. split; [reflexivity | lia].
Qed.

(** C8: [loadStrings] touches no field of the table but [elements_],
    whether it returns or throws. *)
Theorem loadStrings_changes_elements_only this binEd :
  let this' := fst (loadStrings this binEd) in
  offsets_ this' = offsets_ this /\
  tableLength_ this' = tableLength_ this /\
  count_ this' = count_ this /\
  offSize_ this' = offSize_ this /\
  offset_ this' = offset_ this /\
  name_ this' = name_ this /\
  type_ this' = type_ this /\
  isBinary_ this' = isBinary_ this /\
  dictOperators_ this' = dictOperators_ this /\
  exists new, elements_ this' = elements_ this ++ new.
Proof.
  unfold loadStrings.
  destruct (loadStrings_loop_pushes (Z.to_nat (count_ this)) 0 this
              (seek (dataStart this) binEd)) as (new & -> & _).
  cbn. repeat split. now exists new.
Qed.

(** ** What every INDEX object satisfies *)

Lemma loadStrings_empty this binEd :
  count_ this = 0 ->
  loadStrings this binEd = (this, Ok (seek (dataStart this) binEd)).
Proof. unfold loadStrings. intros ->. reflexivity. Qed.

Lemma loadDict_empty this binEd :
  count_ this = 0 ->
  loadDict this binEd = (this, Ok (seek (dataStart this) binEd)).
Proof. unfold loadDict. intros ->. reflexivity. Qed.

Lemma loadDict_changes_elements_only this binEd :
  exists new,
    fst (loadDict this binEd) = with_elements this (elements_ this ++ new).
Proof.
  unfold loadDict.
  destruct (loadDict_loop_pushes (Z.to_nat (count_ this)) 0 this
              (seek (dataStart this) binEd)) as (new & -> & _).
  now exists new.
Qed.

Lemma new_CffIndex_elements name off type isBinary binEd this binEd' :
  new_CffIndex name off type isBinary binEd = Ok (this, binEd') ->
  elements_ this = [].
Proof.
  intros Hnew. destruct (Z.eq_dec (count_ this) 0) as [Hz | Hnz].
  - now destruct (new_CffIndex_empty _ _ _ _ _ _ _ Hnew Hz) as (-> & _).
  - now destruct (new_CffIndex_nonempty _ _ _ _ _ _ _ Hnew Hnz)
      as (_ & _ & _ & _ & _ & -> & _).
Qed.

(** Either the INDEX is empty, and then it stays the record the
    constructor built, or its header fields are those of a non-empty
    INDEX. *)
Lemma IndexTable_invariant this :
  IndexTable this ->
  (count_ this = 0 /\ offSize_ this = 0 /\ offsets_ this = [] /\
   tableLength_ this = 2 /\ elements_ this = []) \/
  (1 <= count_ this /\ 1 <= offSize_ this <= 4 /\
   List.length (offsets_ this) = Z.to_nat (count_ this + 1) /\
   tableLength_ this
   = 2 + 1 + (count_ this + 1) * offSize_ this
     + (offset_at this (count_ this) - 1)).
Proof.
  induction 1 as [name off type isBinary binEd this binEd' Hnew
                 | this ops _ IH | this binEd _ IH | this binEd _ IH].
  - destruct (Z.eq_dec (count_ this) 0) as [Hz | Hnz].
    + left. destruct (new_CffIndex_empty _ _ _ _ _ _ _ Hnew Hz) as (-> & _).
      cbn. auto.
    + right.
      destruct (new_CffIndex_nonempty _ _ _ _ _ _ _ Hnew Hnz)
        as (_ & _ & Hc & Hw & _ & -> & _).
      unfold offset_at, nonempty_index.
      cbn [count_ offSize_ offsets_ tableLength_].
      rewrite length_map, indices_length. repeat split; lia.
  - exact IH.
  - destruct IH as [(Hz & IH) | IH].
    + left. rewrite loadStrings_empty by assumption. cbn [fst]. auto.
    + right.
      unfold loadStrings.
      destruct (loadStrings_loop_pushes (Z.to_nat (count_ this)) 0 this
                  (seek (dataStart this) binEd)) as (new & -> & _).
      exact IH.
  - destruct IH as [(Hz & IH) | IH].
    + left. rewrite loadDict_empty by assumption. cbn [fst]. auto.
    + right.
      destruct (loadDict_changes_elements_only this binEd) as (new & ->).
      exact IH.
Qed.

(** C7, as the code has it: on an empty INDEX [getLength] is 2 and both
    load operations leave the table as it is, with no element; the
    cursor keeps its buffer and is moved to position offset + 3. *)
Theorem load_on_empty_index this :
  IndexTable this ->
  count_ this = 0 ->
  getLength this = 2 /\
  elements_ this = [] /\
  forall binEd,
    loadStrings this binEd = (this, Ok (seek (offset_ this + 3) binEd)) /\
    loadDict this binEd = (this, Ok (seek (offset_ this + 3) binEd)) /\
    dataView (seek (offset_ this + 3) binEd) = dataView binEd /\
    baseOffset (seek (offset_ this + 3) binEd) = baseOffset binEd /\
    offset (seek (offset_ this + 3) binEd) = offset_ this + 3.
Proof.
  intros Hthis Hz.
  destruct (IndexTable_invariant this Hthis)
    as [(_ & Hw & _ & Hlen & Hel) | (Hc & _)]; [| lia].
  split; [exact Hlen |]. split; [exact Hel |].
  intros binEd.
  assert (Hstart : dataStart this = offset_ this + 3)
    by (unfold dataStart; rewrite Hz, Hw; lia).
  rewrite loadStrings_empty, loadDict_empty, Hstart by assumption.
  repeat split.
Qed.

(** C3, as the code has it: on an INDEX object with count >= 1 whose
    offsets do not decrease, a call of [loadStrings] that returns has
    read, from [dataStart] on and one after the other, the count elements
    of lengths offsets[i+1] - offsets[i], all of them in the buffer, as
    views when [isBinary_] and as text otherwise, and has appended them in
    order to the elements the table already had: the length of
    [elements_] has grown by count, and is count when it was empty
    before. The cursor is left at dataStart + offsets[count] - offsets[0],
    the end of the table when offsets[0] is 1. *)
Theorem loadStrings_appends this binEd this' binEd' :
  IndexTable this ->
  1 <= count_ this ->
  (forall k, 0 <= k < count_ this ->
     offset_at this k <= offset_at this (k + 1)) ->
  loadStrings this binEd = (this', Ok binEd') ->
  let base := dataStart this - offset_at this 0 in
  let n := Z.to_nat (count_ this) in
  Forall (loadable this binEd base) (indices n 0) /\
  elements_ this'
  = elements_ this ++ map (loaded_element this binEd base) (indices n 0) /\
  Z.of_nat (List.length (elements_ this'))
  = Z.of_nat (List.length (elements_ this)) + count_ this /\
  (elements_ this = [] ->
   Z.of_nat (List.length (elements_ this')) = count_ this) /\
  binEd' = seek (dataStart this
                 + (offset_at this (count_ this) - offset_at this 0)) binEd /\
  (offset_at this 0 = 1 ->
   offset binEd' = offset_ this + getLength this).
Proof.
  intros Hthis Hcount Hmono Hload base n. unfold loadStrings in Hload.
  apply (loadStrings_loop_Ok _ _ _ _ base) in Hload;
    [| cbn [offset seek]; unfold base; lia].
  destruct Hload as (Hall & -> & ->). fold n in Hall.
  change (Forall (loadable this binEd base) (indices n 0)) in Hall.
  cbn [elements_ with_elements].
  change (loaded_element this (seek (dataStart this) binEd) base)
    with (loaded_element this binEd base).
  assert (Hlen : Z.of_nat
                   (List.length
                      (elements_ this
                       ++ map (loaded_element this binEd base) (indices n 0)))
                 = Z.of_nat (List.length (elements_ this)) + count_ this).
  { rewrite length_app, length_map, indices_length. unfold n. lia. }
  assert (Hend : base + offset_at this (0 + Z.of_nat (Z.to_nat (count_ this)))
                 = dataStart this
                   + (offset_at this (count_ this) - offset_at this 0)).
  { replace (0 + Z.of_nat (Z.to_nat (count_ this))) with (count_ this) by lia.
    unfold base. lia. }
  rewrite seek_seek, Hend.
  split; [exact Hall |]. split; [reflexivity |]. split; [exact Hlen |].
  split; [| split; [reflexivity |]].
  - intros Hnil. etransitivity; [exact Hlen |]. rewrite Hnil. cbn. lia.
  - intros Hfirst. cbn [offset seek]. unfold getLength.
    destruct (IndexTable_invariant this Hthis)
      as [(Hz & _) | (_ & _ & _ & ->)]; [lia |].
    unfold dataStart. lia.
Qed.

(** C10: after a first [loadStrings] on a table with count >= 1 and no
    element, a second call over the same buffer returns as well and
    appends the same count elements once more: [elements_] holds 2*count
    entries, and the entries count + i and i are equal for i < count. *)
Theorem loadStrings_twice this0 c1 this1 c1' c2 :
  elements_ this0 = [] ->
  1 <= count_ this0 ->
  loadStrings this0 c1 = (this1, Ok c1') ->
  dataView c2 = dataView c1 ->
  baseOffset c2 = baseOffset c1 ->
  exists this2,
    loadStrings this1 c2 = (this2, Ok c1') /\
    elements_ this2 = elements_ this1 ++ elements_ this1 /\
    Z.of_nat (List.length (elements_ this1)) = count_ this0 /\
    Z.of_nat (List.length (elements_ this2)) = 2 * count_ this0 /\
    count_ this2 = count_ this0 /\
    forall i, 0 <= i < count_ this0 ->
      exists e,
        getElement this1 i = Ok e /\
        getElement this2 i = Ok e /\
        getElement this2 (count_ this0 + i) = Ok e.
Proof.
  intros Hnil Hcount Hload Hdv Hbo.
  set (base := dataStart this0 - offset_at this0 0).
  unfold loadStrings in Hload.
  apply (loadStrings_loop_Ok _ _ _ _ base) in Hload;
    [| cbn [offset seek]; unfold base; lia].
  destruct Hload as (Hall & -> & ->). rewrite Hnil.
  cbn [app].
  set (new := map (loaded_element this0 (seek (dataStart this0) c1) base)
                (indices (Z.to_nat (count_ this0)) 0)) in Hall |- *.
  assert (Hlen : Z.of_nat (List.length new) = count_ this0).
  { unfold new. rewrite length_map, indices_length. lia. }
  exists (with_elements this0 (new ++ new)).
  split; [| split; [reflexivity | split; [exact Hlen | split; [| split]]]].
  - unfold loadStrings.
    rewrite (seek_same_buffer _ c2 c1) by assumption.
    apply (loadStrings_loop_Ok _ _ _ _ base).
    { cbn [offset seek].
      change (dataStart (with_elements this0 new)) with (dataStart this0).
      change (offset_at (with_elements this0 new)) with (offset_at this0).
      unfold base. lia. }
    split; [exact Hall |]. split; reflexivity.
  - cbn [elements_ with_elements]. rewrite length_app. lia.
  - reflexivity.
  - intros i Hi.
    destruct (nth_error new (Z.to_nat i)) as [e |] eqn:He;
      [| apply nth_error_None in He; lia].
    exists e. unfold getElement. cbn [elements_ with_elements].
    assert (H1 : array_get new i = Some e)
      by (apply array_get_Some; split; [lia | exact He]).
    assert (H2 : array_get (new ++ new) i = Some e).
    { apply array_get_Some; split; [lia |].
      rewrite nth_error_app1 by lia. exact He. }
    assert (H3 : array_get (new ++ new) (count_ this0 + i) = Some e).
    { apply array_get_Some; split; [lia |].
      rewrite nth_error_app2 by lia.
      replace (Z.to_nat (count_ this0 + i) - List.length new)%nat
        with (Z.to_nat i) by lia.
      exact He. }
    rewrite H1, H2, H3. auto.
Qed.

(** ** getElement *)

Lemma getElement_in_range this index :
  0 <= index < Z.of_nat (List.length (elements_ this)) ->
  exists e,
    nth_error (elements_ this) (Z.to_nat index) = Some e /\
    getElement this index = Ok e.
Proof.
  intros Hi. destruct (array_get_in_range (elements_ this) index Hi) as (e & He).
  exists e. unfold getElement. rewrite He.
  apply array_get_Some in He. tauto.
Qed.

Lemma getElement_out_of_range this index :
  ~ 0 <= index < Z.of_nat (List.length (elements_ this)) ->
  getElement this index = Throw (invalid_index this index).
Proof.
  intros Hi. unfold getElement.
  now rewrite (array_get_out_of_range (elements_ this) index Hi).
Qed.

(** C4, as the code has it: [getElement] returns the stored element for
    0 <= index < elements.length and otherwise throws the RangeError
    whose message names the INDEX and the index. Hence every call on a
    table that has just been constructed throws, and so does every call
    with index >= count on a table on which one load operation has run. *)
Theorem getElement_contract this index :
  (0 <= index < Z.of_nat (List.length (elements_ this)) ->
   exists e,
     nth_error (elements_ this) (Z.to_nat index) = Some e /\
     getElement this index = Ok e) /\
  (~ 0 <= index < Z.of_nat (List.length (elements_ this)) ->
   getElement this index = Throw (invalid_index this index)) /\
  ((exists name off type isBinary binEd0 binEd0',
      new_CffIndex name off type isBinary binEd0 = Ok (this, binEd0')) ->
   getElement this index = Throw (invalid_index this index) /\
   forall binEd, count_ this <= index ->
     getElement (fst (loadStrings this binEd)) index
     = Throw (invalid_index this index) /\
     getElement (fst (loadDict this binEd)) index
     = Throw (invalid_index this index)).
Proof.
  split; [apply getElement_in_range |].
  split; [apply getElement_out_of_range |].
  intros (name & off & type & isBinary & binEd0 & binEd0' & Hnew).
  pose proof (new_CffIndex_elements _ _ _ _ _ _ _ Hnew) as Hnil.
  split.
  - apply getElement_out_of_range. rewrite Hnil. cbn. lia.
  - intros binEd Hi. split.
    + unfold loadStrings.
      destruct (loadStrings_loop_pushes (Z.to_nat (count_ this)) 0 this
                  (seek (dataStart this) binEd)) as (new & -> & Hlen).
      change (invalid_index this index)
        with (invalid_index (with_elements this (elements_ this ++ new)) index).
      apply getElement_out_of_range.
      cbn [elements_ with_elements]. rewrite Hnil. cbn [app]. lia.
    + unfold loadDict.
      destruct (loadDict_loop_pushes (Z.to_nat (count_ this)) 0 this
                  (seek (dataStart this) binEd)) as (new & -> & Hlen).
      change (invalid_index this index)
        with (invalid_index (with_elements this (elements_ this ++ new)) index).
      apply getElement_out_of_range.
      cbn [elements_ with_elements]. rewrite Hnil. cbn [app]. lia.
Qed.

(** ** What the constructor does not check *)

Lemma readable_part binEd pos len a n :
  readable binEd pos len = true ->
  0 <= a -> 0 <= n -> a + n <= len ->
  readable binEd (pos + a) n = true.
Proof.
  unfold readable, contains.
  rewrite !andb_true_iff, !Z.leb_le. lia.
Qed.

Lemma new_CffIndex_Throw name off type isBinary binEd e :
  new_CffIndex name off type isBinary binEd = Throw e ->
  e = TruncatedBuffer \/ e = InvalidArgument.
Proof.
  rewrite new_CffIndex_unfold.
  destruct (getUint16 _) as [[count c1] | e1] eqn:E16.
  - destruct (count =? 0); [discriminate |].
    destruct (getUint8 c1) as [[offSize c2] | e2] eqn:E8.
    + destruct (read_offsets _ _ _ _) as [[offsets c3] | e3] eqn:Eoff;
        [discriminate |].
      intros [= <-]. eapply read_offsets_Throw; eassumption.
    + intros [= <-]. eapply take_then_Throw; exact E8.
  - intros [= <-]. eapply take_then_Throw; exact E16.
Qed.

(** Over a readable header with count >= 1 and a width in 1..4 the
    constructor succeeds, whatever the offsets are. *)
Lemma new_CffIndex_over_header name off type isBinary binEd :
  let count := be_decode (peek binEd off 2) in
  let offSize := be_decode (peek binEd (off + 2) 1) in
  1 <= count -> 1 <= offSize <= 4 ->
  readable binEd off (3 + (count + 1) * offSize) = true ->
  new_CffIndex name off type isBinary binEd
  = Ok (nonempty_index name off type isBinary count offSize
          (map (fun k => be_decode
                           (peek binEd (off + 3 + k * offSize) offSize))
             (indices (Z.to_nat (count + 1)) 0)),
        seek (off + 3 + (count + 1) * offSize) binEd).
Proof.
  intros count offSize Hc Hw Hr.
  rewrite new_CffIndex_unfold.
  assert (H16 : getUint16 (seek off binEd)
                = Ok (count, seek (off + 2) binEd)).
  { apply getUint16_Ok. cbn [offset seek].
    rewrite readable_seek, peek_seek, seek_seek.
    repeat split.
    replace off with (off + 0) at 1 by lia.
    apply (readable_part _ _ _ _ _ Hr); nia. }
  rewrite H16.
  destruct (Z.eqb_spec count 0) as [Hz | _]; [lia |].
  assert (H8 : getUint8 (seek (off + 2) binEd)
               = Ok (offSize, seek (off + 2 + 1) binEd)).
  { apply getUint8_Ok. cbn [offset seek].
    rewrite readable_seek, peek_seek, seek_seek.
    repeat split. apply (readable_part _ _ _ _ _ Hr); nia. }
  rewrite H8.
  set (offsets := map (fun k => be_decode
                                  (peek binEd (off + 3 + k * offSize) offSize))
                    (indices (Z.to_nat (count + 1)) 0)).
  assert (Hoff : read_offsets (Z.to_nat (count + 1)) offSize []
                   (seek (off + 2 + 1) binEd)
                 = Ok (offsets,
                       seek (off + 3 + (count + 1) * offSize) binEd)).
  { apply (read_offsets_Ok _ _ _ _ 0 (off + 3)); [cbn [offset seek]; lia |].
    split; [right; exact Hw |]. split; [| split].
    - apply Forall_forall. intros k Hk. apply indices_In in Hk.
      rewrite readable_seek.
      replace (off + 3 + k * offSize) with (off + (3 + k * offSize)) by lia.
      apply (readable_part _ _ _ _ _ Hr); nia.
    - reflexivity.
    - rewrite seek_seek. f_equal. lia. }
  rewrite Hoff. reflexivity.
Qed.

(** C6, as the code has it: the constructor validates nothing and never
    raises MalformedIndex. Whenever count >= 1, the offset width is one of
    1..4 and the header with its count+1 offsets lies in the buffer,
    construction succeeds and computes the table length by the formula,
    whatever the order of the offsets and however far the length reaches. *)
Theorem construction_does_not_validate name off type isBinary binEd :
  new_CffIndex name off type isBinary binEd <> Throw MalformedIndex /\
  (forall e, new_CffIndex name off type isBinary binEd = Throw e ->
             e = TruncatedBuffer \/ e = InvalidArgument) /\
  let count := be_decode (peek binEd off 2) in
  let offSize := be_decode (peek binEd (off + 2) 1) in
  (1 <= count -> 1 <= offSize <= 4 ->
   readable binEd off (3 + (count + 1) * offSize) = true ->
   exists this,
     new_CffIndex name off type isBinary binEd
     = Ok (this, seek (off + 3 + (count + 1) * offSize) binEd) /\
     count_ this = count /\ offSize_ this = offSize /\
     List.length (offsets_ this) = Z.to_nat (count + 1) /\
     getLength this
     = 2 + 1 + (count + 1) * offSize + (offset_at this count - 1)).
Proof.
  split.
  { intros H. apply new_CffIndex_Throw in H as [H | H]; discriminate. }
  split; [apply new_CffIndex_Throw |].
  intros count offSize Hc Hw Hr.
  eexists. split; [apply new_CffIndex_over_header; assumption |].
  unfold getLength, offset_at, nonempty_index.
  cbn [count_ offSize_ offsets_ tableLength_].
  rewrite length_map, indices_length.
  subst count offSize. repeat split. lia.
Qed.

(** ** The encoder and the round trip *)

Lemma byte_value_of_Z z : byte_value (byte_of_Z z) = z mod 256.
Proof.
  unfold byte_value, byte_of_Z.
  pose proof (Z.mod_pos_bound z 256 ltac:(lia)) as Hm.
  destruct (Byte.of_N (Z.to_N (z mod 256))) as [b |] eqn:E.
  - apply Byte.to_of_N in E. rewrite E. lia.
  - apply Byte.of_N_None_iff in E. lia.
Qed.

Lemma be_encode_length width z : List.length (be_encode width z) = width.
Proof.
  revert z; induction width as [| width IH]; intros z; cbn [be_encode].
  - reflexivity.
  - rewrite length_app, IH. cbn. lia.
Qed.

Lemma be_decode_encode width z :
  0 <= z < 256 ^ Z.of_nat width -> be_decode (be_encode width z) = z.
Proof.
  revert z; induction width as [| width IH]; intros z Hz; cbn [be_encode].
  - cbn in Hz. cbn. lia.
  - rewrite Nat2Z.inj_succ, Z.pow_succ_r in Hz by lia.
    rewrite be_decode_app, IH.
    + cbn [List.length]. change (256 ^ Z.of_nat 1) with 256.
      replace (be_decode [byte_of_Z z]) with (byte_value (byte_of_Z z))
        by (cbn; lia).
      rewrite byte_value_of_Z.
      pose proof (Z.div_mod z 256 ltac:(lia)). lia.
    + split; [apply Z.div_pos; lia |].
      apply Z.div_lt_upper_bound; lia.
Qed.

Lemma firstn_skipn_middle {A} (a b c : list A) :
  firstn (List.length b) (skipn (List.length a) (a ++ b ++ c)) = b.
Proof.
  rewrite skipn_app, skipn_all, Nat.sub_diag. cbn [skipn app].
  rewrite firstn_app, Nat.sub_diag, firstn_all. cbn [firstn].
  apply app_nil_r.
Qed.

(** A part of what the editor sees at [off] is seen at its own position. *)
Lemma peek_part binEd off len bytes a b c :
  readable binEd off len = true ->
  peek binEd off len = bytes ->
  bytes = a ++ b ++ c ->
  peek binEd (off + Z.of_nat (List.length a)) (Z.of_nat (List.length b)) = b.
Proof.
  unfold readable, contains, peek, slice.
  rewrite !andb_true_iff, !Z.leb_le.
  intros ((((Hbo & Hpos) & Hlen) & Hfit) & Hbuf) Hbytes Hsplit.
  set (start := Z.to_nat (byteOffset (dataView binEd)
                          + (baseOffset binEd + off))) in *.
  replace (Z.to_nat (byteOffset (dataView binEd)
                     + (baseOffset binEd + (off + Z.of_nat (List.length a)))))
    with (List.length a + start)%nat by lia.
  rewrite Nat2Z.id, <- skipn_skipn.
  assert (Hle : (List.length a + List.length b <= Z.to_nat len)%nat).
  { assert (H : List.length bytes
                = (List.length a + (List.length b + List.length c))%nat)
      by (rewrite Hsplit, !length_app; reflexivity).
    rewrite <- Hbytes, length_firstn in H. lia. }
  rewrite <- (firstn_skipn_middle a b c) at 2.
  rewrite <- Hsplit, <- Hbytes.
  rewrite skipn_firstn_comm, firstn_firstn.
  f_equal. lia.
Qed.

Lemma readable_piece binEd off len (a n : nat) :
  readable binEd off len = true ->
  Z.of_nat (a + n) <= len ->
  readable binEd (off + Z.of_nat a) (Z.of_nat n) = true.
Proof.
  intros Hr Hle. apply (readable_part _ _ _ _ _ Hr); lia.
Qed.

Lemma element_offsets_length first es :
  List.length (element_offsets first es) = S (List.length es).
Proof.
  revert first; induction es as [| e es IH]; intros first;
    cbn [element_offsets List.length]; [reflexivity |].
  now rewrite IH.
Qed.

(** Offset [k] is the first one plus the bytes of the elements before. *)
Lemma element_offsets_nth first (before after : list (list byte)) :
  nth (List.length before) (element_offsets first (before ++ after)) 0
  = first + Z.of_nat (List.length (List.concat before)).
Proof.
  revert first; induction before as [| e before IH]; intros first.
  - destruct after; cbn; lia.
  - cbn [app List.length element_offsets nth List.concat].
    rewrite IH, length_app. lia.
Qed.

Lemma flat_map_be_encode_length width offs :
  List.length (flat_map (be_encode width) offs)
  = (List.length offs * width)%nat.
Proof.
  induction offs as [| o offs IH]; cbn [flat_map List.length]; [reflexivity |].
  rewrite length_app, be_encode_length, IH. lia.
Qed.

(** The bytes of a view that [readDataView] hands out. *)
Lemma view_bytes binEd pos len :
  readable binEd pos len = true ->
  DataView_bytes
    {| buffer := buffer (dataView binEd);
       byteOffset := byteOffset (dataView binEd) + baseOffset binEd + pos;
       byteLength := len |}
  = Ok (peek binEd pos len).
Proof.
  unfold readable, contains, DataView_bytes, DataView_slice, peek, slice.
  cbn [buffer byteOffset byteLength].
  rewrite !andb_true_iff, !Z.leb_le.
  intros ((((Hbo & Hpos) & Hlen) & Hfit) & Hbuf).
  unfold contains. cbn [buffer byteOffset byteLength].
  replace ((0 <=? byteOffset (dataView binEd) + baseOffset binEd + pos)
           && (0 <=? 0) && (0 <=? len) && (0 + len <=? len)
           && (byteOffset (dataView binEd) + baseOffset binEd + pos + len
               <=? Z.of_nat (List.length (buffer (dataView binEd)))))
    with true.
  - do 3 f_equal. lia.
  - symmetry. rewrite !andb_true_iff, !Z.leb_le. lia.
Qed.

Lemma concat_firstn_le (es : list (list byte)) (k : nat) :
  (List.length (List.concat (firstn k es))
   <= List.length (List.concat es))%nat.
Proof.
  rewrite <- (firstn_skipn k es) at 2.
  rewrite concat_app, length_app. lia.
Qed.

Lemma element_offsets_firstn (es : list (list byte)) (k : nat) :
  (k <= List.length es)%nat ->
  nth k (element_offsets 1 es) 0
  = 1 + Z.of_nat (List.length (List.concat (firstn k es))).
Proof.
  intros Hk.
  pose proof (element_offsets_nth 1 (firstn k es) (skipn k es)) as H.
  rewrite firstn_skipn, length_firstn in H.
  replace (Nat.min k (List.length es)) with k in H by lia.
  exact H.
Qed.

Section Encoded.

(** An INDEX of at least one element, with offsets of [width] bytes that
    can hold them, seen by the editor at position [off]. *)
Variable width : nat.
Variable es : list (list byte).
Variable binEd : BinaryFontEditor.
Variable off : Z.

Hypothesis width_range : (1 <= width <= 4)%nat.
Hypothesis count_range : 1 <= Z.of_nat (List.length es) <= 65535.
Hypothesis offsets_fit :
  1 + Z.of_nat (List.length (List.concat es)) < 256 ^ Z.of_nat width.
Hypothesis encoding_readable :
  readable binEd off (Z.of_nat (List.length (encode_INDEX width es))) = true.
Hypothesis encoding_seen :
  peek binEd off (Z.of_nat (List.length (encode_INDEX width es)))
  = encode_INDEX width es.

Collection encoded :=
  width_range count_range offsets_fit encoding_readable encoding_seen.

Lemma encode_INDEX_nonempty :
  encode_INDEX width es
  = be_encode 2 (Z.of_nat (List.length es))
    ++ be_encode 1 (Z.of_nat width)
    ++ flat_map (be_encode width) (element_offsets 1 es)
    ++ List.concat es.
Proof using encoded.
  destruct es; [cbn in count_range; lia | reflexivity].
Qed.

Lemma encode_INDEX_length :
  Z.of_nat (List.length (encode_INDEX width es))
  = 2 + 1 + (Z.of_nat (List.length es) + 1) * Z.of_nat width
    + Z.of_nat (List.length (List.concat es)).
Proof using encoded.
  rewrite encode_INDEX_nonempty, !length_app, !be_encode_length,
    flat_map_be_encode_length, element_offsets_length.
  lia.
Qed.

Lemma encoded_count :
  be_decode (peek binEd off 2) = Z.of_nat (List.length es).
Proof using encoded.
  pose proof (peek_part binEd off _ _ [] _ _
                encoding_readable encoding_seen encode_INDEX_nonempty) as H.
  rewrite be_encode_length in H. cbn [List.length] in H.
  replace (off + Z.of_nat 0) with off in H by lia.
  change (Z.of_nat 2) with 2 in H. rewrite H.
  apply be_decode_encode. change (256 ^ Z.of_nat 2) with 65536. lia.
Qed.

Lemma encoded_offSize :
  be_decode (peek binEd (off + 2) 1) = Z.of_nat width.
Proof using encoded.
  pose proof (peek_part binEd off _ _ _ _ _
                encoding_readable encoding_seen encode_INDEX_nonempty) as H.
  rewrite !be_encode_length in H.
  change (Z.of_nat 2) with 2 in H. change (Z.of_nat 1) with 1 in H.
  rewrite H.
  apply be_decode_encode. change (256 ^ Z.of_nat 1) with 256. lia.
Qed.

Lemma encoded_offset (k : nat) :
  (k <= List.length es)%nat ->
  be_decode (peek binEd (off + 3 + Z.of_nat k * Z.of_nat width)
               (Z.of_nat width))
  = 1 + Z.of_nat (List.length (List.concat (firstn k es))).
Proof using encoded.
  intros Hk.
  assert (Hlt : (k < List.length (element_offsets 1 es))%nat)
    by (rewrite element_offsets_length; lia).
  destruct (nth_error (element_offsets 1 es) k) as [o |] eqn:Eo;
    [| apply nth_error_None in Eo; lia].
  assert (Ho : o = 1 + Z.of_nat (List.length (List.concat (firstn k es)))).
  { rewrite <- element_offsets_firstn by assumption.
    symmetry. now apply nth_error_nth. }
  apply nth_error_split in Eo as (before & after & Hsplit & Hbefore).
  assert (Henc : encode_INDEX width es
                 = (be_encode 2 (Z.of_nat (List.length es))
                    ++ be_encode 1 (Z.of_nat width)
                    ++ flat_map (be_encode width) before)
                   ++ be_encode width o
                   ++ (flat_map (be_encode width) after ++ List.concat es)).
  { rewrite encode_INDEX_nonempty, Hsplit, flat_map_app.
    cbn [flat_map]. now rewrite <- !app_assoc. }
  pose proof (peek_part binEd off _ _ _ _ _
                encoding_readable encoding_seen Henc) as H.
  rewrite !length_app, !be_encode_length, flat_map_be_encode_length,
    Hbefore in H.
  replace (off + Z.of_nat (2 + (1 + k * width)))
    with (off + 3 + Z.of_nat k * Z.of_nat width) in H by lia.
  rewrite H, <- Ho. apply be_decode_encode.
  pose proof (concat_firstn_le es k). lia.
Qed.

(** Where element [i] lies and what the editor sees there. *)
Lemma encoded_element (i : nat) e :
  nth_error es i = Some e ->
  let start := 3 + (Z.of_nat (List.length es) + 1) * Z.of_nat width
               + Z.of_nat (List.length (List.concat (firstn i es))) in
  List.length (List.concat (firstn (S i) es))
  = (List.length (List.concat (firstn i es)) + List.length e)%nat /\
  readable binEd (off + start) (Z.of_nat (List.length e)) = true /\
  peek binEd (off + start) (Z.of_nat (List.length e)) = e.
Proof using encoded.
  intros He start.
  pose proof (nth_error_split es i He) as (before & after & Hsplit & Hbefore).
  assert (Hi : firstn i es = before).
  { rewrite Hsplit, <- Hbefore, firstn_app, Nat.sub_diag, firstn_all.
    cbn [firstn]. apply app_nil_r. }
  assert (HSi : firstn (S i) es = before ++ [e]).
  { rewrite Hsplit, <- Hbefore, firstn_app, firstn_all2 by lia.
    replace (S (List.length before) - List.length before)%nat with 1%nat
      by lia.
    reflexivity. }
  assert (Henc : encode_INDEX width es
                 = (be_encode 2 (Z.of_nat (List.length es))
                    ++ be_encode 1 (Z.of_nat width)
                    ++ flat_map (be_encode width) (element_offsets 1 es)
                    ++ List.concat before)
                   ++ e ++ List.concat after).
  { rewrite encode_INDEX_nonempty. rewrite Hsplit at 3.
    rewrite concat_app. cbn [List.concat]. now rewrite <- !app_assoc. }
  assert (Hstart : start
                   = Z.of_nat (List.length
                       (be_encode 2 (Z.of_nat (List.length es))
                        ++ be_encode 1 (Z.of_nat width)
                        ++ flat_map (be_encode width) (element_offsets 1 es)
                        ++ List.concat before))).
  { rewrite !length_app, !be_encode_length, flat_map_be_encode_length,
      element_offsets_length. unfold start. rewrite Hi. lia. }
  split; [| split].
  - rewrite HSi, Hi, concat_app, length_app. cbn [List.concat List.length].
    rewrite app_nil_r. reflexivity.
  - rewrite Hstart. apply (readable_piece _ _ _ _ _ encoding_readable).
    rewrite Henc, !length_app. lia.
  - rewrite Hstart.
    exact (peek_part binEd off _ _ _ _ _
             encoding_readable encoding_seen Henc).
Qed.

End Encoded.

(** C9: an INDEX of N byte strings, encoded with an offset width in
    1..4 that can hold its offsets and seen by the editor at position
    [off], is decoded by the constructor (count N, table length the
    length of the encoding), and after [loadStrings] element i is the
    i-th byte string: as the bytes of the view when the table is binary,
    as the text of those bytes otherwise. *)
Theorem index_round_trip (width : nat) (es : list (list byte))
    name off type isBinary binEd :
  (1 <= width <= 4)%nat ->
  Z.of_nat (List.length es) <= 65535 ->
  1 + Z.of_nat (List.length (List.concat es)) < 256 ^ Z.of_nat width ->
  readable binEd off (Z.of_nat (List.length (encode_INDEX width es))) = true ->
  peek binEd off (Z.of_nat (List.length (encode_INDEX width es)))
  = encode_INDEX width es ->
  exists this binEd' this' binEd'',
    new_CffIndex name off type isBinary binEd = Ok (this, binEd') /\
    count_ this = Z.of_nat (List.length es) /\
    getLength this = Z.of_nat (List.length (encode_INDEX width es)) /\
    loadStrings this binEd' = (this', Ok binEd'') /\
    List.length (elements_ this') = List.length es /\
    forall i e, nth_error es i = Some e ->
      if isBinary
      then exists view,
             getElement this' (Z.of_nat i) = Ok (View view) /\
             DataView_bytes view = Ok e
      else getElement this' (Z.of_nat i) = Ok (Str (string_of_list_byte e)).
Proof.
  intros Hw Hn Hfit Hr Hp.
  destruct (Nat.eq_dec (List.length es) 0) as [Hz | Hnz].
  - apply length_zero_iff_nil in Hz. subst es.
    change (Z.of_nat (List.length (encode_INDEX width []))) with 2 in *.
    assert (Hcount : be_decode (peek binEd off 2) = 0)
      by (rewrite Hp; reflexivity).
    exists (empty_index name off type isBinary), (seek (off + 2) binEd),
      (empty_index name off type isBinary),
      (seek (dataStart (empty_index name off type isBinary))
         (seek (off + 2) binEd)).
    split; [now apply new_CffIndex_over_empty |].
    split; [reflexivity |]. split; [reflexivity |].
    split; [now apply loadStrings_empty |]. split; [reflexivity |].
    intros [| i] e; discriminate.
  - assert (Hc : 1 <= Z.of_nat (List.length es) <= 65535) by lia.
    pose proof (encoded_count width es binEd off Hw Hc Hfit Hr Hp) as Hcount.
    pose proof (encoded_offSize width es binEd off Hw Hc Hfit Hr Hp) as Hsize.
    pose proof (encode_INDEX_length width es binEd off Hw Hc Hfit Hr Hp)
      as Hlen.
    pose proof (new_CffIndex_over_header name off type isBinary binEd) as Hnew.
    cbv zeta in Hnew. rewrite Hcount, Hsize in Hnew.
    specialize (Hnew ltac:(lia) ltac:(lia)).
    assert (Hheader : readable binEd off
                        (3 + (Z.of_nat (List.length es) + 1) * Z.of_nat width)
                      = true).
    { replace off with (off + 0) by lia.
      apply (readable_part _ _ _ _ _ Hr); nia. }
    specialize (Hnew Hheader).
    set (N := Z.of_nat (List.length es)) in *.
    set (w := Z.of_nat width) in *.
    set (this := nonempty_index name off type isBinary N w
                   (map (fun k => be_decode (peek binEd (off + 3 + k * w) w))
                      (indices (Z.to_nat (N + 1)) 0))) in *.
    assert (Hoff : forall k : nat, (k <= List.length es)%nat ->
              offset_at this (Z.of_nat k)
              = 1 + Z.of_nat (List.length (List.concat (firstn k es)))).
    { intros k Hk. unfold offset_at, this. cbn [offsets_ nonempty_index].
      rewrite Nat2Z.id. apply nth_error_nth.
      rewrite nth_error_map, indices_nth_error by lia. cbn [option_map].
      f_equal. replace (0 + Z.of_nat k) with (Z.of_nat k) by lia.
      apply (encoded_offset width es binEd off Hw Hc Hfit Hr Hp k Hk). }
    set (base := dataStart this - offset_at this 0).
    assert (Hbase : base = off + 3 + (N + 1) * w - 1).
    { pose proof (Hoff 0%nat ltac:(lia)) as H0.
      change (Z.of_nat 0) with 0 in H0.
      cbn [firstn List.concat List.length] in H0.
      unfold base. rewrite H0.
      unfold dataStart, this. cbn [offset_ count_ offSize_ nonempty_index].
      lia. }
    assert (Hel : forall i e, nth_error es i = Some e ->
              base + offset_at this (Z.of_nat i)
              = off + (3 + (N + 1) * w
                       + Z.of_nat (List.length (List.concat (firstn i es)))) /\
              offset_at this (Z.of_nat i + 1) - offset_at this (Z.of_nat i)
              = Z.of_nat (List.length e) /\
              readable binEd (base + offset_at this (Z.of_nat i))
                (Z.of_nat (List.length e)) = true /\
              peek binEd (base + offset_at this (Z.of_nat i))
                (Z.of_nat (List.length e)) = e).
    { intros i e He.
      assert (Hi : (i < List.length es)%nat)
        by (apply nth_error_Some; congruence).
      destruct (encoded_element width es binEd off Hw Hc Hfit Hr Hp i e He)
        as (HS & Hre & Hpe).
      assert (Hposn : base + offset_at this (Z.of_nat i)
                = off + (3 + (N + 1) * w
                   + Z.of_nat (List.length (List.concat (firstn i es))))).
      { rewrite Hbase, (Hoff i) by lia. lia. }
      split; [exact Hposn |]. rewrite Hposn. split; [| split; assumption].
      replace (Z.of_nat i + 1) with (Z.of_nat (S i)) by lia.
      rewrite (Hoff i), (Hoff (S i)), HS by lia. lia. }
    set (load := loaded_element this (seek (dataStart this)
                   (seek (off + 3 + (N + 1) * w) binEd)) base).
    exists this, (seek (off + 3 + (N + 1) * w) binEd),
      (with_elements this
         (elements_ this ++ map load (indices (Z.to_nat (count_ this)) 0))),
      (seek (base + offset_at this (0 + Z.of_nat (Z.to_nat (count_ this))))
         (seek (dataStart this) (seek (off + 3 + (N + 1) * w) binEd))).
    split; [exact Hnew |]. split; [reflexivity |].
    split.
    { pose proof (Hoff _ (le_n (List.length es))) as HN.
      rewrite firstn_all in HN. fold N in HN.
      unfold getLength.
      change (tableLength_ this)
        with (2 + 1 + (N + 1) * w + offset_at this N - 1).
      rewrite HN, Hlen. lia. }
    split.
    { unfold loadStrings. apply (loadStrings_loop_Ok _ _ _ _ base).
      { cbn [offset seek]. unfold base. lia. }
      split; [| split; reflexivity].
      apply Forall_forall. intros k Hk. apply indices_In in Hk.
      change (count_ this) with N in Hk.
      destruct (nth_error es (Z.to_nat k)) as [e |] eqn:He;
        [| apply nth_error_None in He; lia].
      destruct (Hel _ _ He) as (_ & Hlene & Hre & _).
      rewrite Z2Nat.id in Hlene, Hre by lia.
      unfold loadable. rewrite readable_seek, Hlene.
      split; [lia |]. split; [| split; [lia | exact Hre]].
      unfold this. cbn [offsets_ nonempty_index].
      rewrite length_map, indices_length. lia. }
    split.
    { cbn [elements_ with_elements nonempty_index this app count_].
      rewrite length_map, indices_length. unfold N. lia. }
    intros i e He.
    assert (Hi : (i < List.length es)%nat)
      by (apply nth_error_Some; congruence).
    destruct (Hel _ _ He) as (_ & Hlene & Hre & Hpe).
    assert (Hget : getElement
                     (with_elements this
                        (elements_ this
                         ++ map load (indices (Z.to_nat (count_ this)) 0)))
                     (Z.of_nat i)
                   = Ok (load (Z.of_nat i))).
    { unfold getElement. cbn [elements_ with_elements nonempty_index this app].
      replace (array_get _ (Z.of_nat i)) with (Some (load (Z.of_nat i)));
        [reflexivity |].
      symmetry. apply array_get_Some. split; [lia |].
      rewrite Nat2Z.id, nth_error_map, indices_nth_error
        by (change (count_ this) with N; unfold N; lia).
      reflexivity. }
    rewrite Hget. unfold load, loaded_element. cbv zeta.
    change (isBinary_ this) with isBinary.
    rewrite Hlene. destruct isBinary.
    + eexists. split; [reflexivity |].
      change (DataView_bytes
                {| buffer := buffer (dataView binEd);
                   byteOffset := byteOffset (dataView binEd)
                                 + baseOffset binEd
                                 + (base + offset_at this (Z.of_nat i));
                   byteLength := Z.of_nat (List.length e) |} = Ok e).
      rewrite view_bytes by exact Hre.
      rewrite Hpe. reflexivity.
    + rewrite !peek_seek, Hpe. reflexivity.
Qed.

(** ** More on the constructor *)

Lemma peek_length_le binEd pos len :
  (List.length (peek binEd pos len) <= Z.to_nat len)%nat.
Proof.
  unfold peek, slice. rewrite length_firstn. lia.
Qed.

Lemma be_decode_peek_range binEd pos len :
  0 <= len -> 0 <= be_decode (peek binEd pos len) < 256 ^ len.
Proof.
  intros Hlen.
  pose proof (be_decode_range (peek binEd pos len)) as [H0 H1].
  pose proof (peek_length_le binEd pos len) as Hle.
  split; [exact H0 |].
  eapply Z.lt_le_trans; [exact H1 |].
  apply Z.pow_le_mono_r; lia.
Qed.

Lemma take_Throw_cases len binEd e :
  take len binEd = Throw e ->
  (0 <= len /\ readable binEd (offset binEd) len = false
   /\ e = TruncatedBuffer)
  \/ (len < 0 /\ e = InvalidArgument).
Proof.
  unfold take, DataView_slice, readable.
  destruct (Z.ltb_spec len 0); [intros [= <-]; right; auto |].
  destruct (contains _ _ _); [discriminate | intros [= <-]; left; auto].
Qed.

Lemma take_then_Throw_nonneg {A} (f : list byte -> A) len binEd e :
  0 <= len ->
  (bs <- take len ;; ret (f bs)) binEd = Throw e -> e = TruncatedBuffer.
Proof.
  intros Hlen. unfold bind, ret.
  destruct (take len binEd) as [[bs c] | e'] eqn:E; [discriminate |].
  intros [= <-].
  apply take_Throw_cases in E as [(_ & _ & ->) | (Hneg & _)];
    [reflexivity | lia].
Qed.

Lemma read_offsets_Throw_in_range n :
  forall offSize acc binEd e,
    1 <= offSize <= 4 ->
    read_offsets n offSize acc binEd = Throw e -> e = TruncatedBuffer.
Proof.
  induction n as [| n IH]; intros offSize acc binEd e Hw;
    cbn [read_offsets].
  - discriminate.
  - unfold bind at 1.
    destruct (getOffset offSize binEd) as [[v c1] | e'] eqn:E.
    + now apply IH.
    + intros [= <-]. unfold getOffset in E.
      destruct (Z.leb_spec 1 offSize); [| lia].
      destruct (Z.leb_spec offSize 4); [| lia].
      cbn [andb] in E.
      eapply take_then_Throw_nonneg; [| exact E]. lia.
Qed.

(** X1: on a header whose count is 0 or whose offset width is one of
    1..4, the constructor returns exactly when the two count bytes are in
    the buffer and, for a count other than 0, the width byte and the
    count+1 offsets are in the buffer too; when it does not return, it
    throws [TruncatedBuffer]. *)
Theorem construction_returns_iff name off type isBinary binEd :
  let count := be_decode (peek binEd off 2) in
  let offSize := be_decode (peek binEd (off + 2) 1) in
  (count = 0 \/ 1 <= offSize <= 4) ->
  ((exists this binEd',
      new_CffIndex name off type isBinary binEd = Ok (this, binEd')) <->
   readable binEd off 2 = true /\
   (count = 0 \/
    readable binEd off (3 + (count + 1) * offSize) = true)) /\
  (forall e, new_CffIndex name off type isBinary binEd = Throw e ->
             e = TruncatedBuffer).
Proof.
  intros count offSize Hvalid. split; [split |].
  - intros (this & binEd' & Hnew).
    destruct (Z.eq_dec (count_ this) 0) as [Hz | Hnz].
    + destruct (new_CffIndex_empty _ _ _ _ _ _ _ Hnew Hz) as (_ & _ & Hc).
      split; [| left; exact Hc].
      rewrite new_CffIndex_unfold in Hnew.
      destruct (getUint16 _) as [[c c1] | e] eqn:E16; [| discriminate].
      apply getUint16_Ok in E16 as (Hr & _). exact Hr.
    + destruct (new_CffIndex_nonempty _ _ _ _ _ _ _ Hnew Hnz)
        as (Hr2 & _ & Hc & Hw & Hall & _ & _).
      fold count offSize in Hc, Hw, Hall.
      split; [exact Hr2 |]. right.
      rewrite Forall_forall in Hall.
      assert (Hlast : readable binEd (off + 3 + count * offSize) offSize
                      = true) by (apply Hall, indices_In; lia).
      unfold readable, contains in Hr2, Hlast |- *.
      rewrite !andb_true_iff, !Z.leb_le in Hr2, Hlast |- *. nia.
  - intros (Hr2 & [Hz | Hr]).
    + eexists; eexists. now apply new_CffIndex_over_empty.
    + pose proof (be_decode_peek_range binEd off 2 ltac:(lia)) as Hc.
      fold count in Hc.
      destruct (Z.eq_dec count 0) as [Hz | Hnz].
      * eexists; eexists. now apply new_CffIndex_over_empty.
      * destruct Hvalid as [Hz | Hw]; [contradiction |].
        eexists; eexists.
        apply new_CffIndex_over_header; fold count offSize;
          [lia | exact Hw | exact Hr].
  - intros e. rewrite new_CffIndex_unfold.
    destruct (getUint16 _) as [[c c1] | e1] eqn:E16.
    + apply getUint16_Ok in E16 as (_ & -> & ->).
      cbn [offset seek]. rewrite peek_seek. fold count.
      destruct (Z.eqb_spec count 0) as [Hz | Hnz]; [discriminate |].
      destruct Hvalid as [Hz | Hw]; [contradiction |].
      destruct (getUint8 _) as [[w c2] | e2] eqn:E8.
      * apply getUint8_Ok in E8 as (_ & -> & ->).
        cbn [offset seek]. rewrite peek_seek. fold offSize.
        destruct (read_offsets _ _ _ _) as [[offsets c3] | e3] eqn:Eoff;
          [discriminate |].
        intros [= <-].
        eapply read_offsets_Throw_in_range; [exact Hw | exact Eoff].
      * intros [= <-].
        eapply (take_then_Throw_nonneg be_decode 1); [lia | exact E8].
    + intros [= <-].
      eapply (take_then_Throw_nonneg be_decode 2); [lia | exact E16].
Qed.

(** X2: a table that has just been constructed holds the arguments of
    the constructor, no operators and no elements, and the cursor has
    consumed the header and nothing else: it stands two bytes after the
    table offset for an empty INDEX, which is the end of the table, and
    at [dataStart] otherwise, where [loadStrings] and [loadDict] will seek. *)
Theorem construction_result name off type isBinary binEd this binEd' :
  new_CffIndex name off type isBinary binEd = Ok (this, binEd') ->
  name_ this = name /\ offset_ this = off /\ type_ this = type /\
  isBinary_ this = isBinary /\ dictOperators_ this = None /\
  elements_ this = [] /\
  dataView binEd' = dataView binEd /\
  baseOffset binEd' = baseOffset binEd /\
  (count_ this = 0 -> offset binEd' = offset_ this + getLength this) /\
  (count_ this <> 0 -> offset binEd' = dataStart this).
Proof.
  intros Hnew.
  destruct (Z.eq_dec (count_ this) 0) as [Hz | Hnz].
  - destruct (new_CffIndex_empty _ _ _ _ _ _ _ Hnew Hz) as (-> & -> & _).
    cbn. repeat split; try reflexivity; intros H;
      first [contradiction | lia].
  - destruct (new_CffIndex_nonempty _ _ _ _ _ _ _ Hnew Hnz)
      as (_ & _ & _ & _ & _ & Hthis & ->).
    rewrite Hthis in Hnz |- *. unfold nonempty_index in Hnz |- *.
    cbn [count_] in Hnz. unfold dataStart.
    cbn [name_ offset_ type_ isBinary_ dictOperators_ elements_ count_
         offSize_ dataView baseOffset offset seek].
    repeat split; try reflexivity; intros H;
      first [contradiction | lia].
Qed.

(** X3: in every state of an INDEX object the count is a 16-bit value,
    the offset width an 8-bit value, no offset is negative and the table
    length is at least 2: it is never negative. When the offset width is
    at most 4, every offset is below 256^offSize and the table length is
    below 2 + 1 + 65536 * 4 + 2^32. *)
Theorem IndexTable_bounds this :
  IndexTable this ->
  0 <= count_ this <= 65535 /\
  0 <= offSize_ this <= 255 /\
  Forall (fun o => 0 <= o) (offsets_ this) /\
  2 <= getLength this /\
  (offSize_ this <= 4 ->
   Forall (fun o => o < 256 ^ offSize_ this) (offsets_ this) /\
   getLength this < 2 + 1 + 65536 * 4 + 2 ^ 32).
Proof.
  induction 1 as [name off type isBinary binEd this binEd' Hnew
                 | this ops _ IH | this binEd _ IH | this binEd _ IH].
  - destruct (Z.eq_dec (count_ this) 0) as [Hz | Hnz].
    + destruct (new_CffIndex_empty _ _ _ _ _ _ _ Hnew Hz) as (-> & _).
      cbn. repeat split; try lia; constructor.
    + destruct (new_CffIndex_nonempty _ _ _ _ _ _ _ Hnew Hnz)
        as (_ & _ & Hc & _ & _ & -> & _).
      pose proof (be_decode_peek_range binEd off 2 ltac:(lia)) as Hc16.
      pose proof (be_decode_peek_range binEd (off + 2) 1 ltac:(lia)) as Hw8.
      set (count := be_decode (peek binEd off 2)) in Hc, Hc16 |- *.
      set (offSize := be_decode (peek binEd (off + 2) 1)) in Hw8 |- *.
      set (offsets := map (fun k => be_decode
                                      (peek binEd (off + 3 + k * offSize)
                                         offSize))
                        (indices (Z.to_nat (count + 1)) 0)).
      assert (Hall : Forall (fun o => 0 <= o < 256 ^ offSize) offsets).
      { apply Forall_forall. intros o Ho.
        apply in_map_iff in Ho as (k & <- & _).
        apply be_decode_peek_range. lia. }
      assert (Hlast : 0 <= nth (Z.to_nat count) offsets 0 < 256 ^ offSize).
      { rewrite Forall_forall in Hall. apply Hall, nth_In.
        unfold offsets. rewrite length_map, indices_length. lia. }
      unfold getLength, nonempty_index.
      cbn [count_ offSize_ offsets_ tableLength_].
      fold offsets.
      change (256 ^ 2) with 65536 in Hc16.
      change (256 ^ 1) with 256 in Hw8.
      split; [lia |]. split; [lia |].
      split; [eapply Forall_impl; [| exact Hall]; intros o Ho; cbv beta in Ho |- *; lia |].
      split; [nia |].
      intros Hw4.
      split; [eapply Forall_impl; [| exact Hall]; intros o Ho; cbv beta in Ho |- *; lia |].
      assert (Hpow : 256 ^ offSize <= 256 ^ 4)
        by (apply Z.pow_le_mono_r; lia).
      change (256 ^ 4) with 4294967296 in Hpow.
      change (2 ^ 32) with 4294967296. nia.
  - exact IH.
  - unfold loadStrings.
    destruct (loadStrings_loop_pushes (Z.to_nat (count_ this)) 0 this
                (seek (dataStart this) binEd)) as (new & -> & _).
    exact IH.
  - destruct (loadDict_changes_elements_only this binEd) as (new & ->).
    exact IH.
Qed.

(** ** More on loadStrings *)

Lemma loadStrings_loop_step n i this binEd :
  loadStrings_loop (S n) i this binEd =
  match array_get (offsets_ this) (i + 1), array_get (offsets_ this) i with
  | Some next, Some here =>
      match read_element this (next - here) binEd with
      | Ok (el, binEd') =>
          loadStrings_loop n (i + 1) (push_element this el) binEd'
      | Throw e => (this, Throw e)
      end
  | _, _ => (this, Throw InvalidArgument)
  end.
Proof.
  cbn [loadStrings_loop]. unfold read_element.
  destruct (array_get _ (i + 1)); [| reflexivity].
  destruct (array_get _ i); [| reflexivity]. cbv zeta.
  destruct (isBinary_ this).
  - destruct (readDataView _ _) as [[v c] | e]; reflexivity.
  - destruct (readString _ _) as [[v c] | e]; reflexivity.
Qed.

(** The read of an iteration: it returns the element the loop is to push
    when the length is not negative and the bytes are there; it throws
    [TruncatedBuffer] when the length is not negative and the bytes are
    not there. *)
Lemma read_element_cases this binEd base i :
  offset binEd = base + offset_at this i ->
  let len := offset_at this (i + 1) - offset_at this i in
  (0 <= len /\ readable binEd (base + offset_at this i) len = true /\
   read_element this len binEd
   = Ok (loaded_element this binEd base i, seek (offset binEd + len) binEd))
  \/
  (0 <= len /\ readable binEd (base + offset_at this i) len = false /\
   read_element this len binEd = Throw TruncatedBuffer)
  \/
  (len < 0 /\ read_element this len binEd = Throw InvalidArgument).
Proof.
  intros Hpos len. unfold read_element, loaded_element. cbv zeta.
  fold len. rewrite <- Hpos.
  destruct (isBinary_ this).
  - destruct (readDataView len binEd) as [[v c] | e] eqn:Er.
    + apply readDataView_Ok in Er as (Hlen & Hr & -> & ->). left. auto.
    + right. unfold readDataView in Er.
      destruct (take len binEd) as [[bs c] | e'] eqn:Et; [discriminate |].
      injection Er as <-.
      apply take_Throw_cases in Et as [(H0 & Hr & ->) | (Hneg & ->)]; auto.
  - destruct (readString len binEd) as [[v c] | e] eqn:Er.
    + apply readString_Ok in Er as (Hlen & Hr & -> & ->). left. auto.
    + right. unfold readString, bind in Er.
      destruct (take len binEd) as [[bs c] | e'] eqn:Et; [discriminate |].
      injection Er as <-.
      apply take_Throw_cases in Et as [(H0 & Hr & ->) | (Hneg & ->)]; auto.
Qed.

(** When the loop throws on a table whose offsets are all there and do
    not decrease, it has pushed the elements before the first one whose
    bytes are not in the buffer, and no more, and the exception is
    [TruncatedBuffer]. *)
Lemma loadStrings_loop_Throw n :
  forall i this binEd base this' e,
    offset binEd = base + offset_at this i ->
    0 <= i ->
    i + Z.of_nat n < Z.of_nat (List.length (offsets_ this)) ->
    (forall k, i <= k < i + Z.of_nat n ->
       offset_at this k <= offset_at this (k + 1)) ->
    loadStrings_loop n i this binEd = (this', Throw e) ->
    exists k,
      (k < n)%nat /\
      Forall (loadable this binEd base) (indices k i) /\
      readable binEd (base + offset_at this (i + Z.of_nat k))
        (offset_at this (i + Z.of_nat k + 1) - offset_at this (i + Z.of_nat k))
      = false /\
      this' = with_elements this
                (elements_ this
                 ++ map (loaded_element this binEd base) (indices k i)) /\
      e = TruncatedBuffer.
Proof.
  clear new_CffDict CffDict_setOperators CffDict_init goog_DEBUG.
  induction n as [| n IH];
    intros i this binEd base this' e Hpos Hi Hlen Hmono.
  - cbn [loadStrings_loop]. discriminate.
  - rewrite loadStrings_loop_step.
    destruct (array_get_in_range (offsets_ this) (i + 1) ltac:(lia))
      as (next & En).
    destruct (array_get_in_range (offsets_ this) i ltac:(lia))
      as (here & Eh).
    rewrite En, Eh.
    assert (Hh : offset_at this i = here) by (now apply array_get_nth).
    assert (Hn : offset_at this (i + 1) = next) by (now apply array_get_nth).
    subst here next.
    pose proof (Hmono i ltac:(lia)) as Hle.
    destruct (read_element_cases this binEd base i Hpos)
      as [(Hnonneg & Hr & ->) | [(Hnonneg & Hr & ->) | (Hneg & _)]];
      [| | lia].
    + intros Hloop.
      apply (IH _ _ _ base) in Hloop.
      * destruct Hloop as (k & Hk & Hall & Hnot & -> & He).
        exists (S k). cbn [indices map].
        replace (i + Z.of_nat (S k)) with (i + 1 + Z.of_nat k) by lia.
        split; [lia |]. split; [| split; [exact Hnot | split; [| exact He]]].
        -- constructor; [| exact Hall].
           unfold loadable. repeat split; try assumption; lia.
        -- cbn [elements_ push_element with_elements name_ offset_ type_
                isBinary_ dictOperators_ count_ offSize_ offsets_
                tableLength_].
           rewrite <- app_assoc. reflexivity.
      * cbn [offset seek]. unfold offset_at in Hpos |- *.
        cbn [offsets_ push_element]. lia.
      * lia.
      * cbn [offsets_ push_element]. lia.
      * intros k Hk. apply (Hmono k). lia.
    + intros [= <- <-]. exists 0%nat. cbn [indices map].
      rewrite app_nil_r, with_elements_self.
      replace (i + Z.of_nat 0) with i by lia.
      split; [lia |]. split; [constructor |]. auto.
Qed.

(** X5: on an INDEX object whose offsets do not decrease, a call of
    [loadStrings] that throws has found the bytes of some element k
    outside the buffer: the exception is [TruncatedBuffer], and the table
    keeps, after the elements it had, the k elements before that one, in
    order. *)
Theorem loadStrings_throws_keeps_prefix this binEd this' e :
  IndexTable this ->
  (forall k, 0 <= k < count_ this ->
     offset_at this k <= offset_at this (k + 1)) ->
  loadStrings this binEd = (this', Throw e) ->
  let base := dataStart this - offset_at this 0 in
  exists k,
    0 <= Z.of_nat k < count_ this /\
    Forall (loadable this binEd base) (indices k 0) /\
    readable binEd (base + offset_at this (Z.of_nat k))
      (offset_at this (Z.of_nat k + 1) - offset_at this (Z.of_nat k))
    = false /\
    elements_ this'
    = elements_ this ++ map (loaded_element this binEd base) (indices k 0) /\
    List.length (elements_ this') = (List.length (elements_ this) + k)%nat /\
    e = TruncatedBuffer.
Proof.
  intros Hthis Hmono Hload base. unfold loadStrings in Hload.
  destruct (IndexTable_invariant this Hthis)
    as [(Hz & _) | (Hc & _ & Hlen & _)].
  { rewrite Hz in Hload. cbn [Z.to_nat loadStrings_loop] in Hload.
    discriminate. }
  apply (loadStrings_loop_Throw _ _ _ _ base) in Hload;
    [| cbn [offset seek]; unfold base; lia | lia | lia
     | intros k Hk; apply Hmono; lia].
  destruct Hload as (k & Hk & Hall & Hnot & -> & He).
  exists k. cbn [elements_ with_elements].
  replace (0 + Z.of_nat k) with (Z.of_nat k) in Hnot by lia.
  split; [lia |]. split; [exact Hall |]. split; [exact Hnot |].
  split; [reflexivity |]. split; [| exact He].
  rewrite length_app, length_map, indices_length. reflexivity.
Qed.

Lemma non_decreasing_chain (f : Z -> Z) n :
  (forall k, 0 <= k < n -> f k <= f (k + 1)) ->
  forall a b, 0 <= a -> a <= b -> b <= n -> f a <= f b.
Proof.
  intros Hstep a b Ha Hab Hb.
  remember (Z.to_nat (b - a)) as m eqn:Hm.
  assert (Heq : b = a + Z.of_nat m) by lia.
  clear Hm. subst b. clear Hab.
  induction m as [| m IH]; [replace (a + Z.of_nat 0) with a by lia; lia |].
  replace (a + Z.of_nat (S m)) with (a + Z.of_nat m + 1) in Hb |- * by lia.
  specialize (IH ltac:(lia)).
  specialize (Hstep (a + Z.of_nat m) ltac:(lia)). lia.
Qed.

(** X4: on an INDEX object with count >= 1 whose offsets do not decrease
    and whose data, offsets[count] - offsets[0] bytes from [dataStart] on,
    lie in the buffer of the cursor, [loadStrings] returns. *)
Theorem loadStrings_returns this binEd :
  IndexTable this ->
  1 <= count_ this ->
  (forall k, 0 <= k < count_ this ->
     offset_at this k <= offset_at this (k + 1)) ->
  readable binEd (dataStart this)
    (offset_at this (count_ this) - offset_at this 0) = true ->
  exists this' binEd', loadStrings this binEd = (this', Ok binEd').
Proof.
  intros Hthis Hcount Hmono Hr.
  destruct (IndexTable_invariant this Hthis)
    as [(Hz & _) | (_ & _ & Hlen & _)]; [lia |].
  set (base := dataStart this - offset_at this 0).
  do 2 eexists. unfold loadStrings.
  apply (loadStrings_loop_Ok _ _ _ _ base);
    [cbn [offset seek]; unfold base; lia |].
  split; [| split; reflexivity].
  apply Forall_forall. intros k Hk. apply indices_In in Hk.
  pose proof (non_decreasing_chain (offset_at this) (count_ this) Hmono)
    as Hchain.
  pose proof (Hchain 0 k ltac:(lia) ltac:(lia) ltac:(lia)) as H0k.
  pose proof (Hchain (k + 1) (count_ this) ltac:(lia) ltac:(lia) ltac:(lia))
    as Hkn.
  pose proof (Hmono k ltac:(lia)) as Hk1.
  unfold loadable. rewrite readable_seek.
  split; [lia |]. split; [lia |]. split; [exact Hk1 |].
  replace (base + offset_at this k)
    with (dataStart this + (offset_at this k - offset_at this 0))
    by (unfold base; lia).
  apply (readable_part _ _ _ _ _ Hr); lia.
Qed.

Lemma loadStrings_loop_kinds n :
  forall i this binEd,
  exists new,
    fst (loadStrings_loop n i this binEd)
    = with_elements this (elements_ this ++ new) /\
    Forall (loaded_kind this) new.
Proof.
  induction n as [| n IH]; intros i this binEd.
  - exists []. cbn [loadStrings_loop fst].
    rewrite app_nil_r, with_elements_self. auto.
  - assert (Hstop : exists new : list element,
              this = with_elements this (elements_ this ++ new) /\
              Forall (loaded_kind this) new).
    { exists []. rewrite app_nil_r, with_elements_self. auto. }
    assert (Hgo : forall e c, loaded_kind this e ->
              exists new : list element,
                fst (loadStrings_loop n (i + 1) (push_element this e) c)
                = with_elements this (elements_ this ++ new) /\
                Forall (loaded_kind this) new).
    { intros e c He. destruct (IH (i + 1) (push_element this e) c)
        as (new & -> & Hall).
      exists (e :: new). cbn [elements_ push_element with_elements].
      rewrite <- app_assoc. cbn [app]. split; [reflexivity |].
      constructor; assumption. }
    cbn [loadStrings_loop].
    destruct (array_get _ (i + 1)); [| exact Hstop].
    destruct (array_get _ i); [| exact Hstop]. cbv zeta.
    destruct (isBinary_ this) eqn:Eb.
    + destruct (readDataView _ _) as [[v c] | e]; [| exact Hstop].
      apply Hgo. unfold loaded_kind. rewrite Eb. now exists v.
    + destruct (readString _ _) as [[v c] | e]; [| exact Hstop].
      apply Hgo. unfold loaded_kind. rewrite Eb. now exists v.
Qed.

(** X6: whether it returns or throws, [loadStrings] pushes elements of
    one kind only, views on a binary table and strings otherwise, at most
    count of them; it never pushes a dictionary. *)
Theorem loadStrings_pushes_one_kind this binEd :
  exists new,
    elements_ (fst (loadStrings this binEd)) = elements_ this ++ new /\
    (List.length new <= Z.to_nat (count_ this))%nat /\
    Forall (loaded_kind this) new /\
    Forall (fun e => forall dict, e <> Dict dict) new.
Proof.
  unfold loadStrings.
  destruct (loadStrings_loop_kinds (Z.to_nat (count_ this)) 0 this
              (seek (dataStart this) binEd)) as (new & Hnew & Hkind).
  destruct (loadStrings_loop_pushes (Z.to_nat (count_ this)) 0 this
              (seek (dataStart this) binEd)) as (new' & Hnew' & Hlen).
  assert (Heq : new' = new).
  { rewrite Hnew in Hnew'.
    apply (f_equal elements_) in Hnew'. cbn [elements_ with_elements] in Hnew'.
    now apply app_inv_head in Hnew'. }
  subst new'. exists new. rewrite Hnew. cbn [elements_ with_elements].
  split; [reflexivity |]. split; [exact Hlen |]. split; [exact Hkind |].
  eapply Forall_impl; [| exact Hkind].
  intros e He dict ->. unfold loaded_kind in He.
  destruct (isBinary_ this); destruct He as (x & Hx); discriminate.
Qed.

(** ** The loaded elements tile the data *)

Lemma firstn_add {A} (a b : nat) (l : list A) :
  firstn (a + b) l = firstn a l ++ firstn b (skipn a l).
Proof.
  revert l; induction a as [| a IH]; intros l; [reflexivity |].
  destruct l as [| x l]; cbn [Nat.add firstn skipn app].
  - now rewrite firstn_nil.
  - now rewrite IH.
Qed.

Lemma peek_length binEd pos len :
  readable binEd pos len = true ->
  Z.of_nat (List.length (peek binEd pos len)) = len.
Proof.
  unfold readable, contains, peek, slice.
  rewrite !andb_true_iff, !Z.leb_le.
  intros ((((Hbo & Hpos) & Hlen) & Hfit) & Hbuf).
  rewrite length_firstn, length_skipn. lia.
Qed.

Lemma peek_app binEd pos a b :
  readable binEd pos a = true -> 0 <= b ->
  peek binEd pos (a + b) = peek binEd pos a ++ peek binEd (pos + a) b.
Proof.
  unfold readable, contains, peek, slice.
  rewrite !andb_true_iff, !Z.leb_le.
  intros ((((Hbo & Hpos) & Hlen) & Hfit) & Hbuf) Hb.
  replace (Z.to_nat (a + b)) with (Z.to_nat a + Z.to_nat b)%nat by lia.
  replace (Z.to_nat (byteOffset (dataView binEd)
                     + (baseOffset binEd + (pos + a))))
    with (Z.to_nat a
          + Z.to_nat (byteOffset (dataView binEd)
                      + (baseOffset binEd + pos)))%nat by lia.
  rewrite <- skipn_skipn. apply firstn_add.
Qed.

Lemma loaded_element_bytes this binEd base k :
  loadable this binEd base k ->
  element_bytes (loaded_element this binEd base k)
  = Some (loaded_bytes this binEd base k) /\
  Z.of_nat (List.length (loaded_bytes this binEd base k))
  = offset_at this (k + 1) - offset_at this k.
Proof.
  intros (_ & _ & _ & Hr). unfold loaded_bytes. split.
  - unfold loaded_element, element_bytes. cbv zeta.
    destruct (isBinary_ this).
    + now rewrite view_bytes by exact Hr.
    + now rewrite list_byte_of_string_of_list_byte.
  - now apply peek_length.
Qed.

Lemma loaded_bytes_concat n :
  forall i this binEd base,
    Forall (loadable this binEd base) (indices n i) ->
    List.concat (map (loaded_bytes this binEd base) (indices n i))
    = peek binEd (base + offset_at this i)
        (offset_at this (i + Z.of_nat n) - offset_at this i).
Proof.
  induction n as [| n IH]; intros i this binEd base Hall.
  - cbn [indices map List.concat].
    replace (i + Z.of_nat 0) with i by lia. rewrite Z.sub_diag.
    reflexivity.
  - cbn [indices map List.concat]. cbn [indices] in Hall.
    apply Forall_cons_iff in Hall as (Hl & Hall).
    rewrite (IH _ _ _ _ Hall).
    assert (Hrest : Forall (fun k => offset_at this k
                                     <= offset_at this (k + 1))
                      (indices n (i + 1))).
    { eapply Forall_impl; [| exact Hall]. intros k (_ & _ & Hle & _).
      exact Hle. }
    assert (Hchain : offset_at this (i + 1)
                     <= offset_at this (i + 1 + Z.of_nat n)).
    { clear IH Hall Hl. revert Hrest. generalize (i + 1).
      induction n as [| n IHn]; intros j Hrest.
      - replace (j + Z.of_nat 0) with j by lia. lia.
      - cbn [indices] in Hrest.
        apply Forall_cons_iff in Hrest as (Hj & Hrest).
        specialize (IHn _ Hrest).
        replace (j + Z.of_nat (S n)) with (j + 1 + Z.of_nat n) by lia. lia. }
    destruct Hl as (_ & _ & Hle & Hr). unfold loaded_bytes.
    replace (i + Z.of_nat (S n)) with (i + 1 + Z.of_nat n) by lia.
    replace (offset_at this (i + 1 + Z.of_nat n) - offset_at this i)
      with ((offset_at this (i + 1) - offset_at this i)
            + (offset_at this (i + 1 + Z.of_nat n) - offset_at this (i + 1)))
      by lia.
    rewrite (peek_app _ _ _ _ Hr) by lia.
    do 2 f_equal. lia.
Qed.

(** X7: on an INDEX object whose offsets do not decrease, when
    [loadStrings] returns, the new elements stand for the bytes of the
    data, cut at the offsets: element k for offsets[k+1] - offsets[k]
    bytes, and all of them, one after the other, for the
    offsets[count] - offsets[0] bytes from [dataStart] on, with no gap and
    no overlap. *)
Theorem loadStrings_tiles_data this binEd this' binEd' :
  IndexTable this ->
  (forall k, 0 <= k < count_ this ->
     offset_at this k <= offset_at this (k + 1)) ->
  loadStrings this binEd = (this', Ok binEd') ->
  let base := dataStart this - offset_at this 0 in
  let n := Z.to_nat (count_ this) in
  exists new,
    elements_ this' = elements_ this ++ new /\
    map element_bytes new
    = map (fun k => Some (loaded_bytes this binEd base k)) (indices n 0) /\
    (forall k, 0 <= k < count_ this ->
       Z.of_nat (List.length (loaded_bytes this binEd base k))
       = offset_at this (k + 1) - offset_at this k) /\
    List.concat (map (loaded_bytes this binEd base) (indices n 0))
    = peek binEd (dataStart this)
        (offset_at this (count_ this) - offset_at this 0).
Proof.
  intros Hthis Hmono Hload base n. unfold loadStrings in Hload.
  apply (loadStrings_loop_Ok _ _ _ _ base) in Hload;
    [| cbn [offset seek]; unfold base; lia].
  destruct Hload as (Hall & -> & _). fold n in Hall.
  change (Forall (loadable this binEd base) (indices n 0)) in Hall.
  exists (map (loaded_element this binEd base) (indices n 0)).
  split; [reflexivity |]. split; [| split].
  - rewrite map_map. apply map_ext_in. intros k Hk.
    rewrite Forall_forall in Hall.
    apply (loaded_element_bytes this binEd base k (Hall k Hk)).
  - intros k Hk. rewrite Forall_forall in Hall.
    apply (loaded_element_bytes this binEd base k).
    apply Hall, indices_In. lia.
  - rewrite (loaded_bytes_concat _ _ _ _ _ Hall).
    replace (base + offset_at this 0) with (dataStart this)
      by (unfold base; lia).
    f_equal. f_equal. unfold offset_at, n. f_equal. lia.
Qed.

(** ** loadDict *)

Lemma loadDict_loop_step n i this binEd :
  loadDict_loop (S n) i this binEd =
  match array_get (offsets_ this) (i + 1), array_get (offsets_ this) i with
  | Some next, Some here =>
      match new_DataView (buffer (dataView binEd))
              (byteOffset (dataView binEd) + baseOffset binEd + offset binEd)
              (next - here) with
      | Ok view =>
          match build_dict this i view with
          | Ok dict =>
              loadDict_loop n (i + 1) (push_element this (Dict dict)) binEd
          | Throw e => (this, Throw e)
          end
      | Throw e => (this, Throw e)
      end
  | _, _ => (this, Throw InvalidArgument)
  end.
Proof. reflexivity. Qed.

Lemma new_DataView_Ok arrayBuffer off len view :
  new_DataView arrayBuffer off len = Ok view ->
  view = {| buffer := arrayBuffer; byteOffset := off; byteLength := len |} /\
  0 <= off /\ 0 <= len /\ off + len <= Z.of_nat (List.length arrayBuffer).
Proof.
  unfold new_DataView.
  destruct ((0 <=? off) && (0 <=? len)
            && (off + len <=? Z.of_nat (List.length arrayBuffer))) eqn:E;
    [| discriminate].
  intros [= <-]. rewrite !andb_true_iff, !Z.leb_le in E. tauto.
Qed.

Lemma new_DataView_Throw arrayBuffer off len e :
  new_DataView arrayBuffer off len = Throw e -> e = TruncatedBuffer.
Proof.
  unfold new_DataView.
  destruct ((0 <=? off) && (0 <=? len)
            && (off + len <=? Z.of_nat (List.length arrayBuffer)));
    [discriminate | now intros [= <-]].
Qed.

(** The loop of [loadDict] returns exactly when every iteration goes
    through; the cursor is then where it was, and the dictionaries built
    have been pushed in order. *)
Lemma loadDict_loop_Ok n :
  forall i this binEd this' binEd',
    loadDict_loop n i this binEd = (this', Ok binEd') <->
    binEd' = binEd /\
    exists dicts,
      Forall2 (dict_built this binEd) (indices n i) dicts /\
      this' = with_elements this (elements_ this ++ map Dict dicts).
Proof.
  induction n as [| n IH]; intros i this binEd this' binEd'.
  - cbn [loadDict_loop indices]. split.
    + intros [= <- <-]. split; [reflexivity |]. exists [].
      split; [constructor |]. cbn [map].
      now rewrite app_nil_r, with_elements_self.
    + intros (-> & dicts & Hall & ->). inversion Hall; subst.
      cbn [map]. now rewrite app_nil_r, with_elements_self.
  - rewrite loadDict_loop_step. cbn [indices].
    assert (Hno : ~ (exists d, dict_built this binEd i d) ->
              forall e, (this, @Throw BinaryFontEditor e) = (this', Ok binEd')
              <-> binEd' = binEd /\
                  exists dicts,
                    Forall2 (dict_built this binEd) (i :: indices n (i + 1))
                      dicts /\
                    this' = with_elements this
                              (elements_ this ++ map Dict dicts)).
    { intros Hnot e. split; [discriminate |].
      intros (_ & dicts & Hall & _). inversion Hall; subst.
      exfalso. apply Hnot. eexists; eassumption. }
    destruct (array_get (offsets_ this) (i + 1)) as [next |] eqn:En;
      [destruct (array_get (offsets_ this) i) as [here |] eqn:Eh |].
    + assert (Hh : offset_at this i = here) by (now apply array_get_nth).
      assert (Hn : offset_at this (i + 1) = next) by (now apply array_get_nth).
      assert (Hi : 0 <= i) by (apply array_get_Some in Eh; tauto).
      assert (Hlen : i + 1 < Z.of_nat (List.length (offsets_ this))).
      { apply array_get_Some in En as [_ En].
        assert (H : nth_error (offsets_ this) (Z.to_nat (i + 1)) <> None)
          by congruence.
        apply nth_error_Some in H. lia. }
      subst here next.
      destruct (new_DataView _ _ _) as [view | e] eqn:Ev.
      * pose proof (new_DataView_Ok _ _ _ _ Ev) as (Hview & _). subst view.
        destruct (build_dict this i _) as [dict | e] eqn:Eb.
        -- rewrite IH.
           change (dict_built (push_element this (Dict dict)) binEd)
             with (dict_built this binEd).
           cbn [elements_ push_element with_elements name_ offset_ type_
                isBinary_ dictOperators_ count_ offSize_ offsets_
                tableLength_].
           split.
           ++ intros (-> & dicts & Hall & ->). split; [reflexivity |].
              exists (dict :: dicts). split.
              ** constructor; [| exact Hall].
                 unfold dict_built. cbv zeta.
                 repeat split; assumption.
              ** cbn [map]. now rewrite <- app_assoc.
           ++ intros (-> & dicts & Hall & ->). split; [reflexivity |].
              inversion Hall as [| k d ks ds Hd Hrest]; subst.
              exists ds. split; [exact Hrest |].
              destruct Hd as (_ & _ & _ & Hb). cbv zeta in Hb.
              assert (Hd : d = dict) by congruence. subst d.
              cbn [map]. now rewrite <- app_assoc.
        -- apply Hno. intros (d & _ & _ & _ & Hb). cbv zeta in Hb.
           congruence.
      * apply Hno. intros (d & _ & _ & Hv & _). cbv zeta in Hv.
        congruence.
    + apply Hno. intros (d & Hk & Hl & _).
      assert (H : exists x, array_get (offsets_ this) i = Some x)
        by (apply array_get_in_range; lia).
      destruct H as (x & H). congruence.
    + apply Hno. intros (d & Hk & Hl & _).
      assert (H : exists x, array_get (offsets_ this) (i + 1) = Some x)
        by (apply array_get_in_range; lia).
      destruct H as (x & H). congruence.
Qed.

Lemma Forall2_indices {A} (R : Z -> A -> Prop) n :
  forall i (l : list A),
    Forall2 R (indices n i) l ->
    List.length l = n /\
    forall j x, nth_error l j = Some x -> R (i + Z.of_nat j) x.
Proof.
  induction n as [| n IH]; intros i l Hall; cbn [indices] in Hall.
  - inversion Hall; subst. split; [reflexivity |].
    intros [| j] x; discriminate.
  - inversion Hall as [| k x ks xs Hx Hrest]; subst.
    destruct (IH _ _ Hrest) as (Hlen & Hnth).
    split; [cbn [List.length]; now rewrite Hlen |].
    intros [| j] y Hy; cbn [nth_error] in Hy.
    + injection Hy as <-. replace (i + Z.of_nat 0) with i by lia. exact Hx.
    + replace (i + Z.of_nat (S j)) with (i + 1 + Z.of_nat j) by lia.
      now apply Hnth.
Qed.

Lemma Forall2_indices_of {A} (R : Z -> A -> Prop) (l : list A) :
  forall i,
    (forall j x, nth_error l j = Some x -> R (i + Z.of_nat j) x) ->
    Forall2 R (indices (List.length l) i) l.
Proof.
  induction l as [| y l IH]; intros i Hnth; cbn [List.length indices].
  - constructor.
  - constructor.
    + replace i with (i + Z.of_nat 0) by lia. now apply Hnth.
    + apply IH. intros j x Hx.
      replace (i + 1 + Z.of_nat j) with (i + Z.of_nat (S j)) by lia.
      now apply Hnth.
Qed.

(** When the loop of [loadDict] throws, it has pushed the dictionaries of
    the iterations before, and the exception is that of a missing offset,
    of a view that leaves the buffer, or the one the DICT decoder threw. *)
Lemma loadDict_loop_Throw n :
  forall i this binEd this' e,
    loadDict_loop n i this binEd = (this', Throw e) ->
    exists k dicts,
      (k < n)%nat /\
      Forall2 (dict_built this binEd) (indices k i) dicts /\
      this' = with_elements this (elements_ this ++ map Dict dicts) /\
      (e = InvalidArgument \/ e = TruncatedBuffer \/
       build_dict this (i + Z.of_nat k)
         {| buffer := buffer (dataView binEd);
            byteOffset := byteOffset (dataView binEd) + baseOffset binEd
                          + offset binEd;
            byteLength := offset_at this (i + Z.of_nat k + 1)
                          - offset_at this (i + Z.of_nat k) |}
       = Throw e).
Proof.
  induction n as [| n IH]; intros i this binEd this' e.
  - cbn [loadDict_loop]. discriminate.
  - rewrite loadDict_loop_step.
    assert (Hstop : forall e0,
              (e0 = InvalidArgument \/ e0 = TruncatedBuffer \/
               build_dict this i
                 {| buffer := buffer (dataView binEd);
                    byteOffset := byteOffset (dataView binEd)
                                  + baseOffset binEd + offset binEd;
                    byteLength := offset_at this (i + 1)
                                  - offset_at this i |}
               = Throw e0) ->
              (this, @Throw BinaryFontEditor e0) = (this', Throw e) ->
              exists k dicts,
                (k < S n)%nat /\
                Forall2 (dict_built this binEd) (indices k i) dicts /\
                this' = with_elements this (elements_ this ++ map Dict dicts) /\
                (e = InvalidArgument \/ e = TruncatedBuffer \/
                 build_dict this (i + Z.of_nat k)
                   {| buffer := buffer (dataView binEd);
                      byteOffset := byteOffset (dataView binEd)
                                    + baseOffset binEd + offset binEd;
                      byteLength := offset_at this (i + Z.of_nat k + 1)
                                    - offset_at this (i + Z.of_nat k) |}
                 = Throw e)).
    { intros e0 He0 [= <- <-]. exists 0%nat, [].
      cbn [indices map]. rewrite app_nil_r, with_elements_self.
      replace (i + Z.of_nat 0) with i by lia.
      split; [lia |]. split; [constructor |]. auto. }
    destruct (array_get (offsets_ this) (i + 1)) as [next |] eqn:En;
      [destruct (array_get (offsets_ this) i) as [here |] eqn:Eh |];
      [| apply Hstop; auto | apply Hstop; auto].
    assert (Hh : offset_at this i = here) by (now apply array_get_nth).
    assert (Hn : offset_at this (i + 1) = next) by (now apply array_get_nth).
    assert (Hi : 0 <= i) by (apply array_get_Some in Eh; tauto).
    assert (Hlen : i + 1 < Z.of_nat (List.length (offsets_ this))).
    { apply array_get_Some in En as [_ En].
      assert (H : nth_error (offsets_ this) (Z.to_nat (i + 1)) <> None)
        by congruence.
      apply nth_error_Some in H. lia. }
    subst here next.
    destruct (new_DataView _ _ _) as [view | e0] eqn:Ev.
    + pose proof (new_DataView_Ok _ _ _ _ Ev) as (Hview & _). subst view.
      destruct (build_dict this i _) as [dict | e0] eqn:Eb.
      * intros Hloop. apply IH in Hloop.
        destruct Hloop as (k & dicts & Hk & Hall & -> & He).
        exists (S k), (dict :: dicts). cbn [indices map].
        split; [lia |]. split; [| split].
        -- constructor; [| exact Hall].
           unfold dict_built. cbv zeta. repeat split; assumption.
        -- cbn [elements_ push_element with_elements name_ offset_ type_
                isBinary_ dictOperators_ count_ offSize_ offsets_
                tableLength_].
           now rewrite <- app_assoc.
        -- replace (i + Z.of_nat (S k)) with (i + 1 + Z.of_nat k) by lia.
           exact He.
      * apply Hstop. auto.
    + apply Hstop. right; left. eapply new_DataView_Throw; exact Ev.
Qed.

Lemma new_DataView_cases arrayBuffer off len :
  let view := {| buffer := arrayBuffer; byteOffset := off;
                 byteLength := len |} in
  (view_in_buffer view /\ new_DataView arrayBuffer off len = Ok view) \/
  (~ view_in_buffer view /\
   new_DataView arrayBuffer off len = Throw TruncatedBuffer).
Proof.
  cbv zeta. unfold new_DataView, view_in_buffer.
  cbn [buffer byteOffset byteLength].
  destruct ((0 <=? off) && (0 <=? len)
            && (off + len <=? Z.of_nat (List.length arrayBuffer))) eqn:E.
  - left. rewrite !andb_true_iff, !Z.leb_le in E. tauto.
  - right. split; [| reflexivity]. intros (H0 & H1 & H2).
    apply Z.leb_le in H0, H1, H2. rewrite H0, H1, H2 in E. discriminate.
Qed.

(** On a table that has the offsets of the elements to come, the loop of
    [loadDict] throws [e] exactly when, after some iterations that built
    their dictionaries, one stops with [e]; the table then holds the
    dictionaries built. *)
Lemma loadDict_loop_stops n :
  forall i this binEd this' e,
    0 <= i ->
    i + Z.of_nat n < Z.of_nat (List.length (offsets_ this)) ->
    (loadDict_loop n i this binEd = (this', Throw e) <->
     exists k dicts,
       (k < n)%nat /\
       Forall2 (dict_built this binEd) (indices k i) dicts /\
       this' = with_elements this (elements_ this ++ map Dict dicts) /\
       dict_stops this binEd (i + Z.of_nat k) e).
Proof.
  induction n as [| n IH]; intros i this binEd this' e Hi Hlen.
  - cbn [loadDict_loop]. split; [discriminate |].
    intros (k & _ & Hk & _). lia.
  - rewrite loadDict_loop_step.
    destruct (array_get_in_range (offsets_ this) i) as (here & Eh); [lia |].
    destruct (array_get_in_range (offsets_ this) (i + 1)) as (next & En);
      [lia |].
    rewrite En, Eh.
    assert (Hh : offset_at this i = here) by (now apply array_get_nth).
    assert (Hn : offset_at this (i + 1) = next) by (now apply array_get_nth).
    subst here next.
    assert (Hi1 : 0 <= i + 1) by lia.
    assert (Hlen1 : i + 1 + Z.of_nat n < Z.of_nat (List.length (offsets_ this)))
      by lia.
    assert (Hk1 : i + 1 < Z.of_nat (List.length (offsets_ this))) by lia.
    assert (Hzero : i + Z.of_nat 0 = i) by lia.
    assert (Hsucc : forall k, i + Z.of_nat (S k) = i + 1 + Z.of_nat k)
      by (intros k; lia).
    clear Hlen En Eh.
    pose proof (new_DataView_cases (buffer (dataView binEd))
                  (byteOffset (dataView binEd) + baseOffset binEd
                   + offset binEd)
                  (offset_at this (i + 1) - offset_at this i)) as Hv.
    cbv zeta in Hv.
    destruct Hv as [(Hin & Ev) | (Hout & Ev)]; rewrite Ev.
    + destruct (build_dict this i _) as [dict | e0] eqn:Eb.
      * rewrite (IH (i + 1) (push_element this (Dict dict)) binEd this' e
                   Hi1 Hlen1).
        change (dict_built (push_element this (Dict dict)) binEd)
          with (dict_built this binEd).
        change (dict_stops (push_element this (Dict dict)) binEd)
          with (dict_stops this binEd).
        cbn [elements_ push_element with_elements name_ offset_ type_
             isBinary_ dictOperators_ count_ offSize_ offsets_
             tableLength_].
        split.
        -- intros (k & dicts & Hk & Hall & -> & Hstop).
           exists (S k), (dict :: dicts). cbn [indices map].
           split; [lia |].
           split; [| split].
           ++ constructor; [| exact Hall].
              unfold dict_built. cbv zeta. repeat split; assumption.
           ++ now rewrite <- app_assoc.
           ++ rewrite Hsucc. exact Hstop.
        -- intros (k & dicts & Hk & Hall & -> & Hstop).
           destruct k as [| k].
           ++ exfalso. rewrite Hzero in Hstop.
              destruct Hstop as [(Hno & _) | (_ & Hb)];
                [contradiction | congruence].
           ++ cbn [indices] in Hall.
              inversion Hall as [| j d js ds Hd Hrest]; subst.
              exists k, ds.
              split; [lia |].
              split; [exact Hrest |].
              destruct Hd as (_ & _ & _ & Hb). cbv zeta in Hb.
              assert (Hd : d = dict) by congruence. subst d.
              split; [cbn [map]; now rewrite <- app_assoc |].
              rewrite <- Hsucc. exact Hstop.
      * split.
        -- intros [= <- <-]. exists 0%nat, [].
           cbn [indices map]. rewrite app_nil_r, with_elements_self, Hzero.
           split; [lia |]. split; [constructor |].
           split; [reflexivity |]. right. split; assumption.
        -- intros (k & dicts & Hk & Hall & -> & Hstop).
           destruct k as [| k].
           ++ inversion Hall; subst. cbn [map].
              rewrite app_nil_r, with_elements_self.
              rewrite Hzero in Hstop.
              destruct Hstop as [(Hno & _) | (_ & Hb)]; [contradiction |].
              congruence.
           ++ exfalso. cbn [indices] in Hall.
              inversion Hall as [| j d js ds Hd Hrest]; subst.
              destruct Hd as (_ & _ & _ & Hb). cbv zeta in Hb. congruence.
    + split.
      * intros [= <- <-]. exists 0%nat, [].
        cbn [indices map]. rewrite app_nil_r, with_elements_self, Hzero.
        split; [lia |]. split; [constructor |].
        split; [reflexivity |]. left. split; assumption.
      * intros (k & dicts & Hk & Hall & -> & Hstop).
        destruct k as [| k].
        -- inversion Hall; subst. cbn [map].
           rewrite app_nil_r, with_elements_self.
           rewrite Hzero in Hstop.
           destruct Hstop as [(_ & Hb) | (Hyes & _)]; [| contradiction].
           cbn [buffer byteOffset byteLength] in Hb. congruence.
        -- exfalso. cbn [indices] in Hall.
           inversion Hall as [| j d js ds Hd Hrest]; subst.
           destruct Hd as (_ & _ & Hb & _). congruence.
Qed.

(** X8: [loadDict] touches no field of the table but [elements_],
    whether it returns or throws, and what it appends to [elements_] are
    dictionaries, at most count of them. *)
Theorem loadDict_changes_elements_by_dicts this binEd :
  let this' := fst (loadDict this binEd) in
  offsets_ this' = offsets_ this /\
  tableLength_ this' = tableLength_ this /\
  count_ this' = count_ this /\
  offSize_ this' = offSize_ this /\
  offset_ this' = offset_ this /\
  name_ this' = name_ this /\
  type_ this' = type_ this /\
  isBinary_ this' = isBinary_ this /\
  dictOperators_ this' = dictOperators_ this /\
  exists dicts,
    elements_ this' = elements_ this ++ map Dict dicts /\
    (List.length dicts <= Z.to_nat (count_ this))%nat.
Proof.
  unfold loadDict.
  destruct (loadDict_loop (Z.to_nat (count_ this)) 0 this
              (seek (dataStart this) binEd)) as [this' [c | e]] eqn:E.
  - apply loadDict_loop_Ok in E as (_ & dicts & Hall & ->).
    apply Forall2_indices in Hall as (Hlen & _).
    cbn. repeat split. exists dicts. split; [reflexivity | lia].
  - apply loadDict_loop_Throw in E as (k & dicts & Hk & Hall & -> & _).
    apply Forall2_indices in Hall as (Hlen & _).
    cbn. repeat split. exists dicts. split; [reflexivity | lia].
Qed.

(** X9: when [loadDict] returns, the cursor stands at [dataStart], not
    after the data: the loop never moves it. The table has count more
    elements, the dictionaries built in order; dictionary i was built
    under the name of the table followed by i, from a view of
    offsets[i+1] - offsets[i] bytes that begins at [dataStart] whatever i
    is and lies in the buffer. *)
Theorem loadDict_returns this binEd this' binEd' :
  loadDict this binEd = (this', Ok binEd') ->
  binEd' = seek (dataStart this) binEd /\
  exists dicts,
    List.length dicts = Z.to_nat (count_ this) /\
    elements_ this' = elements_ this ++ map Dict dicts /\
    forall i dict, nth_error dicts i = Some dict ->
      build_dict this (Z.of_nat i) (dict_view this binEd (Z.of_nat i))
      = Ok dict /\
      byteOffset (dict_view this binEd (Z.of_nat i))
      = byteOffset (dataView binEd) + baseOffset binEd + dataStart this /\
      byteLength (dict_view this binEd (Z.of_nat i))
      = offset_at this (Z.of_nat i + 1) - offset_at this (Z.of_nat i) /\
      0 <= byteLength (dict_view this binEd (Z.of_nat i)) /\
      byteOffset (dict_view this binEd (Z.of_nat i))
      + byteLength (dict_view this binEd (Z.of_nat i))
      <= Z.of_nat (List.length (buffer (dataView binEd))).
Proof.
  unfold loadDict. intros Hload.
  apply loadDict_loop_Ok in Hload as (-> & dicts & Hall & ->).
  split; [reflexivity |].
  apply Forall2_indices in Hall as (Hlen & Hnth).
  exists dicts. split; [exact Hlen |]. split; [reflexivity |].
  intros i dict Hi.
  specialize (Hnth i dict Hi).
  replace (0 + Z.of_nat i) with (Z.of_nat i) in Hnth by lia.
  destruct Hnth as (_ & _ & Hv & Hb). cbv zeta in Hv, Hb.
  apply new_DataView_Ok in Hv as (_ & H0 & Hl & Hfit).
  cbn [offset seek dataView baseOffset] in Hb, H0, Hl, Hfit.
  split; [exact Hb |]. cbn [byteOffset byteLength dict_view].
  split; [reflexivity |]. split; [reflexivity |]. split; [exact Hl |].
  exact Hfit.
Qed.

(** X10: on an INDEX object [loadDict] throws [e] exactly when the
    dictionaries of the elements before some element k < count were built,
    each from a view in the buffer, and element k stops the call in one of
    two ways: its view leaves the buffer and [e] is what [new DataView]
    throws on it, or its view is in the buffer and [e] is what the DICT
    decoder throws on it, passed on as it is. The table is then the one
    of before with the k dictionaries built appended. *)
Theorem loadDict_throws this binEd this' e :
  IndexTable this ->
  (loadDict this binEd = (this', Throw e) <->
   exists dicts,
     let k := Z.of_nat (List.length dicts) in
     let view := dict_view this binEd in
     k < count_ this /\
     this' = with_elements this (elements_ this ++ map Dict dicts) /\
     (forall i dict, nth_error dicts i = Some dict ->
        view_in_buffer (view (Z.of_nat i)) /\
        build_dict this (Z.of_nat i) (view (Z.of_nat i)) = Ok dict) /\
     ((~ view_in_buffer (view k) /\
       new_DataView (buffer (view k)) (byteOffset (view k))
         (byteLength (view k)) = Throw e)
      \/ (view_in_buffer (view k) /\ build_dict this k (view k) = Throw e))).
Proof.
  intros Hthis. cbv zeta.
  destruct (IndexTable_invariant this Hthis)
    as [(Hz & _) | (Hc & _ & Hlen & _)].
  { unfold loadDict. rewrite Hz. cbn [Z.to_nat loadDict_loop].
    split; [discriminate |].
    intros (dicts & Hk & _). lia. }
  unfold loadDict.
  rewrite (loadDict_loop_stops _ 0 this (seek (dataStart this) binEd) this' e)
    by lia.
  split.
  - intros (k & dicts & Hk & Hall & -> & Hstop).
    pose proof (Forall2_indices _ _ _ _ Hall) as (Hl & Hnth).
    exists dicts. rewrite Hl.
    split; [lia |]. split; [reflexivity |]. split.
    + intros i dict Hi. specialize (Hnth i dict Hi).
      rewrite Z.add_0_l in Hnth.
      destruct Hnth as (_ & _ & Hv & Hb). cbv zeta in Hv, Hb.
      apply new_DataView_Ok in Hv as (_ & Hfit).
      split; [exact Hfit | exact Hb].
    + rewrite Z.add_0_l in Hstop. exact Hstop.
  - intros (dicts & Hk & -> & Hbuilt & Hstop).
    exists (List.length dicts), dicts.
    split; [lia |].
    split; [| split; [reflexivity | rewrite Z.add_0_l; exact Hstop]].
    apply Forall2_indices_of. intros i dict Hi.
    destruct (Hbuilt i dict Hi) as (Hfit & Hb).
    rewrite Z.add_0_l.
    assert (Hlt : (i < List.length dicts)%nat)
      by (apply nth_error_Some; congruence).
    unfold dict_built. cbv zeta.
    split; [lia |]. split; [lia |]. split; [| exact Hb].
    destruct (new_DataView_cases (buffer (dataView binEd))
                (byteOffset (dataView binEd) + baseOffset binEd
                 + dataStart this)
                (offset_at this (Z.of_nat i + 1) - offset_at this (Z.of_nat i)))
      as [(_ & Hv) | (Hno & _)]; [exact Hv | contradiction].
Qed.

(** ** loadDict over an encoded INDEX *)

Lemma element_length_le (es : list (list byte)) i e :
  nth_error es i = Some e ->
  (List.length e <= List.length (List.concat es))%nat.
Proof.
  intros He. apply nth_error_split in He as (before & after & -> & _).
  rewrite concat_app. cbn [List.concat]. rewrite !length_app. lia.
Qed.

(** The table the constructor builds over an encoded INDEX. *)
Lemma encoded_construction (width : nat) (es : list (list byte))
    name off type isBinary binEd :
  (1 <= width <= 4)%nat ->
  1 <= Z.of_nat (List.length es) <= 65535 ->
  1 + Z.of_nat (List.length (List.concat es)) < 256 ^ Z.of_nat width ->
  readable binEd off (Z.of_nat (List.length (encode_INDEX width es))) = true ->
  peek binEd off (Z.of_nat (List.length (encode_INDEX width es)))
  = encode_INDEX width es ->
  let N := Z.of_nat (List.length es) in
  let w := Z.of_nat width in
  exists this,
    new_CffIndex name off type isBinary binEd
    = Ok (this, seek (off + 3 + (N + 1) * w) binEd) /\
    count_ this = N /\
    dataStart this = off + 3 + (N + 1) * w /\
    name_ this = name /\
    forall k : nat, (k <= List.length es)%nat ->
      offset_at this (Z.of_nat k)
      = 1 + Z.of_nat (List.length (List.concat (firstn k es))).
Proof.
  intros Hw Hc Hfit Hr Hp N w.
  pose proof (encoded_count width es binEd off Hw Hc Hfit Hr Hp) as Hcount.
  pose proof (encoded_offSize width es binEd off Hw Hc Hfit Hr Hp) as Hsize.
  pose proof (encode_INDEX_length width es binEd off Hw Hc Hfit Hr Hp)
    as Hlen.
  pose proof (new_CffIndex_over_header name off type isBinary binEd) as Hnew.
  cbv zeta in Hnew. rewrite Hcount, Hsize in Hnew.
  specialize (Hnew ltac:(lia) ltac:(lia)).
  assert (Hheader : readable binEd off
                      (3 + (Z.of_nat (List.length es) + 1) * Z.of_nat width)
                    = true).
  { replace off with (off + 0) by lia.
    apply (readable_part _ _ _ _ _ Hr); nia. }
  specialize (Hnew Hheader).
  eexists. split; [exact Hnew |].
  split; [reflexivity |].
  split; [unfold dataStart, nonempty_index;
          cbn [offset_ count_ offSize_]; unfold N, w; lia |].
  split; [reflexivity |].
  intros k Hk. unfold offset_at. cbn [offsets_ nonempty_index].
  rewrite Nat2Z.id. apply nth_error_nth.
  rewrite nth_error_map, indices_nth_error by lia. cbn [option_map].
  f_equal. replace (0 + Z.of_nat k) with (Z.of_nat k) by lia.
  apply (encoded_offset width es binEd off Hw Hc Hfit Hr Hp k Hk).
Qed.

(** X11: over an encoded INDEX of N >= 1 elements, the view [loadDict]
    builds for element i has the length of that element but begins at
    the first data byte: it shows the first length(element i) bytes of the
    data, which are element 0 for i = 0. When [loadDict] returns, element
    i of the table is the dictionary built from these bytes. *)
Theorem loadDict_views_over_encoding (width : nat) (es : list (list byte))
    name off type isBinary binEd :
  (1 <= width <= 4)%nat ->
  1 <= Z.of_nat (List.length es) <= 65535 ->
  1 + Z.of_nat (List.length (List.concat es)) < 256 ^ Z.of_nat width ->
  readable binEd off (Z.of_nat (List.length (encode_INDEX width es))) = true ->
  peek binEd off (Z.of_nat (List.length (encode_INDEX width es)))
  = encode_INDEX width es ->
  exists this binEd',
    new_CffIndex name off type isBinary binEd = Ok (this, binEd') /\
    (forall i e, nth_error es i = Some e ->
       byteLength (dict_view this binEd' (Z.of_nat i))
       = Z.of_nat (List.length e) /\
       DataView_bytes (dict_view this binEd' (Z.of_nat i))
       = Ok (firstn (List.length e) (List.concat es)) /\
       (i = 0%nat -> DataView_bytes (dict_view this binEd' 0) = Ok e)) /\
    (forall this' binEd'',
       loadDict this binEd' = (this', Ok binEd'') ->
       forall i e, nth_error es i = Some e ->
         exists dict,
           build_dict this (Z.of_nat i) (dict_view this binEd' (Z.of_nat i))
           = Ok dict /\
           getElement this' (Z.of_nat i) = Ok (Dict dict)).
Proof.
  intros Hw Hc Hfit Hr Hp.
  destruct (encoded_construction width es name off type isBinary binEd
              Hw Hc Hfit Hr Hp) as (this & Hnew & Hcount & Hstart & _ & Hoff).
  pose proof (encode_INDEX_length width es binEd off Hw Hc Hfit Hr Hp)
    as Hlen.
  pose proof (new_CffIndex_elements _ _ _ _ _ _ _ Hnew) as Hnil.
  set (N := Z.of_nat (List.length es)) in *.
  set (w := Z.of_nat width) in *.
  exists this, (seek (off + 3 + (N + 1) * w) binEd).
  split; [exact Hnew |].
  assert (Hviews : forall i e, nth_error es i = Some e ->
            byteLength (dict_view this (seek (off + 3 + (N + 1) * w) binEd)
                          (Z.of_nat i))
            = Z.of_nat (List.length e) /\
            DataView_bytes (dict_view this
                              (seek (off + 3 + (N + 1) * w) binEd)
                              (Z.of_nat i))
            = Ok (firstn (List.length e) (List.concat es))).
  { intros i e He.
    assert (Hi : (i < List.length es)%nat)
      by (apply nth_error_Some; congruence).
    destruct (encoded_element width es binEd off Hw Hc Hfit Hr Hp i e He)
      as (HS & _ & _).
    pose proof (element_length_le es i e He) as Hle.
    assert (Hbl : offset_at this (Z.of_nat i + 1) - offset_at this (Z.of_nat i)
                  = Z.of_nat (List.length e)).
    { replace (Z.of_nat i + 1) with (Z.of_nat (S i)) by lia.
      rewrite (Hoff i), (Hoff (S i)), HS by lia. lia. }
    split; [exact Hbl |].
    unfold dict_view. rewrite Hbl, Hstart.
    change (DataView_bytes
              {| buffer := buffer (dataView binEd);
                 byteOffset := byteOffset (dataView binEd) + baseOffset binEd
                               + (off + 3 + (N + 1) * w);
                 byteLength := Z.of_nat (List.length e) |}
            = Ok (firstn (List.length e) (List.concat es))).
    assert (Hsplit : encode_INDEX width es
                     = (be_encode 2 (Z.of_nat (List.length es))
                        ++ be_encode 1 (Z.of_nat width)
                        ++ flat_map (be_encode width) (element_offsets 1 es))
                       ++ firstn (List.length e) (List.concat es)
                       ++ skipn (List.length e) (List.concat es)).
    { rewrite firstn_skipn, <- !app_assoc.
      apply (encode_INDEX_nonempty width es binEd off Hw Hc Hfit Hr Hp). }
    assert (Hhead : Z.of_nat (List.length
                      (be_encode 2 (Z.of_nat (List.length es))
                       ++ be_encode 1 (Z.of_nat width)
                       ++ flat_map (be_encode width) (element_offsets 1 es)))
                    = 3 + (N + 1) * w).
    { rewrite !length_app, !be_encode_length, flat_map_be_encode_length,
        element_offsets_length. unfold N, w. lia. }
    assert (Hb : List.length (firstn (List.length e) (List.concat es))
                 = List.length e)
      by (rewrite length_firstn; lia).
    pose proof (peek_part binEd off _ _ _ _ _ Hr Hp Hsplit) as Hpeek.
    rewrite Hhead, Hb in Hpeek.
    assert (Hre : readable binEd (off + (3 + (N + 1) * w))
                    (Z.of_nat (List.length e)) = true)
      by (apply (readable_part _ _ _ _ _ Hr); lia).
    replace (off + 3 + (N + 1) * w) with (off + (3 + (N + 1) * w)) by lia.
    rewrite (view_bytes binEd _ _ Hre), Hpeek. reflexivity. }
  split.
  - intros i e He. destruct (Hviews i e He) as (Hbl & Hbytes).
    split; [exact Hbl |]. split; [exact Hbytes |].
    intros ->. change (Z.of_nat 0) with 0 in Hbytes. rewrite Hbytes.
    destruct es as [| e0 rest]; [discriminate |].
    cbn [nth_error] in He. injection He as ->.
    cbn [List.concat]. rewrite firstn_app, Nat.sub_diag, firstn_all.
    cbn [firstn]. now rewrite app_nil_r.
  - intros this' binEd'' Hload i e He.
    assert (Hi : (i < List.length es)%nat)
      by (apply nth_error_Some; congruence).
    unfold loadDict in Hload.
    apply loadDict_loop_Ok in Hload as (_ & dicts & Hall & ->).
    apply Forall2_indices in Hall as (Hdl & Hnth).
    destruct (nth_error dicts i) as [dict |] eqn:Ed;
      [| apply nth_error_None in Ed; lia].
    exists dict. specialize (Hnth i dict Ed).
    replace (0 + Z.of_nat i) with (Z.of_nat i) in Hnth by lia.
    destruct Hnth as (_ & _ & _ & Hb). split; [exact Hb |].
    unfold getElement. cbn [elements_ with_elements]. rewrite Hnil.
    cbn [app].
    replace (array_get (map Dict dicts) (Z.of_nat i)) with (Some (Dict dict));
      [reflexivity |].
    symmetry. apply array_get_Some. split; [lia |].
    rewrite Nat2Z.id, nth_error_map, Ed. reflexivity.
Qed.

End Decoder.

Arguments Str {CffDict} str.
Arguments View {CffDict} dataView.
Arguments Dict {CffDict} dict.
Arguments getElement {CffDict} this index.
Arguments getLength {CffDict} this.
Arguments loadStrings {CffDict} this binEd.
Arguments count_ {CffDict} c.
Arguments offSize_ {CffDict} c.
Arguments offsets_ {CffDict} c.
Arguments elements_ {CffDict} c.
Arguments tableLength_ {CffDict} c.
Arguments offset_ {CffDict} c.
Arguments offset_at {CffDict} this i.
Arguments invalid_index {CffDict} this index.
Arguments loadable {CffDict} this binEd base k.
Arguments loaded_element {CffDict} this binEd base i.

(** ** The scenarios *)

(** C5: over [00 02, 01, 01 02 04, 'A', 'BC'] at offset 0 the constructor
    finds count 2 and table length 9, and after [loadStrings] the
    elements 0 and 1 are "A" and "BC". *)
Theorem scenario_decodes :
  let binEd := editor_over scenario_buffer in
  exists this binEd' this' binEd'',
    new_CffIndex DataView "String" 0 TYPE_STRING false binEd
    = Ok (this, binEd') /\
    count_ this = 2 /\
    getLength this = 9 /\
    loadStrings this binEd' = (this', Ok binEd'') /\
    getElement this' 0 = Ok (Str "A") /\
    getElement this' 1 = Ok (Str "BC").
Proof.
  cbv zeta. do 4 eexists.
  split; [reflexivity |]. split; [reflexivity |]. split; [reflexivity |].
  split; [reflexivity |]. split; reflexivity.
Qed.

(** The scenario table after one and after two calls of [loadStrings]. *)
Lemma scenario_index_constructed :
  new_CffIndex DataView "String" 0 TYPE_STRING false
    (editor_over scenario_buffer)
  = Ok (scenario_index DataView, seek 6 (editor_over scenario_buffer)).
Proof. reflexivity. Qed.

Lemma scenario_index_loaded :
  loadStrings (scenario_index DataView) (editor_over scenario_buffer)
  = (with_elements DataView (scenario_index DataView) [Str "A"; Str "BC"],
     Ok (seek 9 (editor_over scenario_buffer))).
Proof. reflexivity. Qed.

Lemma scenario_index_is_IndexTable :
  IndexTable DataView sample_new_CffDict sample_setOperators sample_init
    false (scenario_index DataView).
Proof.
  exact (IndexTable_new DataView sample_new_CffDict sample_setOperators
           sample_init false _ _ _ _ _ _ _ scenario_index_constructed).
Defined.

Lemma scenario_offsets_do_not_decrease :
  forall k, 0 <= k < count_ (scenario_index DataView) ->
    offset_at (scenario_index DataView) k
    <= offset_at (scenario_index DataView) (k + 1).
Proof.
  intros k Hk. change (count_ (scenario_index DataView)) with 2 in Hk.
  assert (Hcases : k = 0 \/ k = 1) by lia.
  destruct Hcases as [-> | ->]; vm_compute; discriminate.
Defined.

Lemma tableLength_of_nonempty_index_witness :
  new_CffIndex DataView "String" 0 TYPE_STRING false
    (editor_over scenario_buffer)
  = Ok (scenario_index DataView, seek 6 (editor_over scenario_buffer)) /\
  1 <= count_ (scenario_index DataView) /\
  exists last,
    array_get (offsets_ (scenario_index DataView)) 2 = Some last /\
    getLength (scenario_index DataView) = 2 + 1 + (2 + 1) * 1 + (last - 1).
Proof.
  split; [reflexivity |]. split; [vm_compute; discriminate |].
  destruct (tableLength_of_nonempty_index DataView "String" 0 TYPE_STRING
              false (editor_over scenario_buffer) (scenario_index DataView)
              (seek 6 (editor_over scenario_buffer)) eq_refl
              ltac:(vm_compute; discriminate))
    as (_ & _ & _ & _ & last & Hlast & _ & Hlen).
  exists last. split; assumption.
Defined.

Lemma empty_index_construction_witness :
  readable (editor_over empty_buffer) 0 2 = true /\
  be_decode (peek (editor_over empty_buffer) 0 2) = 0 /\
  exists this,
    new_CffIndex DataView "Empty" 0 TYPE_STRING false
      (editor_over empty_buffer)
    = Ok (this, seek (0 + 2) (editor_over empty_buffer)) /\
    count_ this = 0 /\ offSize_ this = 0 /\ offsets_ this = [] /\
    tableLength_ this = 2 /\ getLength this = 2 /\ elements_ this = [].
Proof.
  split; [reflexivity |]. split; [reflexivity |].
  apply (empty_index_construction DataView "Empty" 0 TYPE_STRING false
           (editor_over empty_buffer)); reflexivity.
Defined.

(** C3 fails as stated: a second [loadStrings] on the scenario table
    returns with four elements, not count = 2. *)
Lemma loadStrings_again_exceeds_count :
  let binEd := editor_over scenario_buffer in
  let this1 := fst (loadStrings (scenario_index DataView) binEd) in
  IndexTable DataView sample_new_CffDict sample_setOperators sample_init
    false this1 /\
  1 <= count_ this1 /\
  exists this2 binEd2,
    loadStrings this1 binEd = (this2, Ok binEd2) /\
    count_ this2 = 2 /\
    Z.of_nat (List.length (elements_ this2)) = 4 /\
    Z.of_nat (List.length (elements_ this2)) <> count_ this2.
Proof.
  cbv zeta. split.
  - apply IndexTable_loadStrings.
    exact (IndexTable_new DataView sample_new_CffDict sample_setOperators
             sample_init false _ _ _ _ _ _ _ scenario_index_constructed).
  - split; [vm_compute; discriminate |]. do 2 eexists.
    split; [reflexivity |]. split; [reflexivity |].
    split; [reflexivity | discriminate].
Qed.

Lemma loadStrings_appends_witness :
  let this := scenario_index DataView in
  let binEd := editor_over scenario_buffer in
  let this' := with_elements DataView this [Str "A"; Str "BC"] in
  IndexTable DataView sample_new_CffDict sample_setOperators sample_init
    false this /\
  1 <= count_ this /\
  (forall k, 0 <= k < count_ this ->
     offset_at this k <= offset_at this (k + 1)) /\
  loadStrings this binEd = (this', Ok (seek 9 binEd)) /\
  Z.of_nat (List.length (elements_ this'))
  = Z.of_nat (List.length (elements_ this)) + count_ this.
Proof.
  cbv zeta. split; [exact scenario_index_is_IndexTable |].
  split; [vm_compute; discriminate |].
  split; [exact scenario_offsets_do_not_decrease |].
  split; [reflexivity |].
  exact (proj1 (proj2 (proj2
    (loadStrings_appends DataView sample_new_CffDict sample_setOperators
       sample_init false
       (scenario_index DataView) (editor_over scenario_buffer)
       (with_elements DataView (scenario_index DataView) [Str "A"; Str "BC"])
       (seek 9 (editor_over scenario_buffer))
       scenario_index_is_IndexTable
       ltac:(vm_compute; discriminate)
       scenario_offsets_do_not_decrease eq_refl)))).
Defined.

(** C4 fails as stated: after two calls of [loadStrings] on the scenario
    table, [getElement 2] returns "A" although 2 >= count. *)
Lemma getElement_beyond_count_returns :
  let binEd := editor_over scenario_buffer in
  let this1 := fst (loadStrings (scenario_index DataView) binEd) in
  let this2 := fst (loadStrings this1 binEd) in
  IndexTable DataView sample_new_CffDict sample_setOperators sample_init
    false this2 /\
  count_ this2 <= 2 /\
  getElement this2 2 = Ok (Str "A").
Proof.
  cbv zeta. split.
  - do 2 apply IndexTable_loadStrings.
    exact (IndexTable_new DataView sample_new_CffDict sample_setOperators
             sample_init false _ _ _ _ _ _ _ scenario_index_constructed).
  - split; [vm_compute; discriminate | reflexivity].
Qed.

Lemma getElement_contract_witness :
  let this := scenario_index DataView in
  let this' := fst (loadStrings this (editor_over scenario_buffer)) in
  0 <= 1 < Z.of_nat (List.length (elements_ this')) /\
  (exists e, nth_error (elements_ this') (Z.to_nat 1) = Some e /\
             getElement this' 1 = Ok e) /\
  getElement this 0 = Throw (invalid_index this 0) /\
  getElement this' 2 = Throw (invalid_index this 2) /\
  invalid_index this 2 = RangeError "CFF String INDEX: invalid index: 2".
Proof.
  cbv zeta.
  assert (Hin : 0 <= 1 < Z.of_nat (List.length (elements_
            (fst (loadStrings (scenario_index DataView)
                    (editor_over scenario_buffer))))))
    by (vm_compute; split; [discriminate | reflexivity]).
  split; [exact Hin |]. split.
  - exact (proj1 (getElement_contract DataView sample_new_CffDict
                    sample_setOperators sample_init false _ 1) Hin).
  - destruct (proj2 (proj2 (getElement_contract DataView sample_new_CffDict
                              sample_setOperators sample_init false
                              (scenario_index DataView) 2))
                (ex_intro _ _ (ex_intro _ _ (ex_intro _ _ (ex_intro _ _
                   (ex_intro _ _ (ex_intro _ _
                      scenario_index_constructed)))))))
      as (_ & Hload).
    split; [reflexivity |].
    split; [| reflexivity].
    exact (proj1 (Hload (editor_over scenario_buffer)
                    ltac:(vm_compute; discriminate))).
Defined.

(** C6 fails as stated: construction succeeds over a header whose
    offsets decrease, and over one whose table length (13) reaches past
    the five bytes of the buffer. *)
Lemma malformed_headers_are_accepted :
  (exists this binEd',
     new_CffIndex DataView "String" 0 TYPE_STRING false
       (editor_over decreasing_buffer) = Ok (this, binEd') /\
     offsets_ this = [2; 1] /\
     offset_at this 1 < offset_at this 0 /\
     getLength this = 5) /\
  (exists this binEd',
     new_CffIndex DataView "String" 0 TYPE_STRING false
       (editor_over overlong_buffer) = Ok (this, binEd') /\
     getLength this = 13 /\
     Z.of_nat (List.length overlong_buffer) = 5).
Proof.
  split; do 2 eexists.
  - split; [reflexivity |]. split; [reflexivity |].
    split; reflexivity.
  - split; [reflexivity |]. split; reflexivity.
Qed.

Lemma construction_does_not_validate_witness :
  let binEd := editor_over decreasing_buffer in
  1 <= be_decode (peek binEd 0 2) /\
  1 <= be_decode (peek binEd (0 + 2) 1) <= 4 /\
  readable binEd 0
    (3 + (be_decode (peek binEd 0 2) + 1) * be_decode (peek binEd (0 + 2) 1))
  = true /\
  exists this,
    new_CffIndex DataView "String" 0 TYPE_STRING false binEd
    = Ok (this,
          seek (0 + 3 + (be_decode (peek binEd 0 2) + 1)
                        * be_decode (peek binEd (0 + 2) 1)) binEd) /\
    count_ this = be_decode (peek binEd 0 2) /\
    offSize_ this = be_decode (peek binEd (0 + 2) 1) /\
    List.length (offsets_ this)
    = Z.to_nat (be_decode (peek binEd 0 2) + 1) /\
    getLength this
    = 2 + 1 + (be_decode (peek binEd 0 2) + 1)
              * be_decode (peek binEd (0 + 2) 1)
      + (offset_at this (be_decode (peek binEd 0 2)) - 1).
Proof.
  cbv zeta.
  split; [vm_compute; discriminate |].
  split; [vm_compute; split; discriminate |].
  split; [reflexivity |].
  apply (proj2 (proj2 (construction_does_not_validate DataView "String" 0
                         TYPE_STRING false (editor_over decreasing_buffer)))).
  - vm_compute; discriminate.
  - vm_compute; split; discriminate.
  - reflexivity.
Defined.

(** C7 fails as stated: on the empty INDEX [loadStrings] and [loadDict]
    move the cursor, from position 2 to position 3. *)
Lemma load_on_empty_index_moves_cursor :
  let binEd := seek 2 (editor_over empty_buffer) in
  let this := empty_index DataView "Empty" 0 TYPE_STRING false in
  new_CffIndex DataView "Empty" 0 TYPE_STRING false (editor_over empty_buffer)
  = Ok (this, binEd) /\
  count_ this = 0 /\
  offset binEd = 2 /\
  loadStrings this binEd = (this, Ok (seek 3 binEd)) /\
  loadDict DataView sample_new_CffDict sample_setOperators sample_init false
    this binEd = (this, Ok (seek 3 binEd)) /\
  offset (seek 3 binEd) = 3 /\
  seek 3 binEd <> binEd.
Proof.
  cbv zeta. repeat (split; [reflexivity |]). discriminate.
Qed.

Lemma load_on_empty_index_witness :
  let this := empty_index DataView "Empty" 0 TYPE_STRING false in
  let binEd := seek 2 (editor_over empty_buffer) in
  IndexTable DataView sample_new_CffDict sample_setOperators sample_init
    false this /\
  count_ this = 0 /\
  getLength this = 2 /\
  elements_ this = [] /\
  loadStrings this binEd = (this, Ok (seek (offset_ this + 3) binEd)) /\
  loadDict DataView sample_new_CffDict sample_setOperators sample_init false
    this binEd = (this, Ok (seek (offset_ this + 3) binEd)).
Proof.
  cbv zeta.
  assert (Hthis : IndexTable DataView sample_new_CffDict sample_setOperators
                    sample_init false
                    (empty_index DataView "Empty" 0 TYPE_STRING false)).
  { apply (IndexTable_new DataView sample_new_CffDict sample_setOperators
             sample_init false "Empty" 0 TYPE_STRING false
             (editor_over empty_buffer) _
             (seek 2 (editor_over empty_buffer))).
    reflexivity. }
  split; [exact Hthis |]. split; [reflexivity |].
  destruct (load_on_empty_index DataView sample_new_CffDict
              sample_setOperators sample_init false _ Hthis eq_refl)
    as (Hlen & Hnil & Hload).
  split; [exact Hlen |]. split; [exact Hnil |].
  destruct (Hload (seek 2 (editor_over empty_buffer))) as (Hs & Hd & _).
  split; [exact Hs | exact Hd].
Defined.

Lemma loadStrings_twice_witness :
  let this0 := scenario_index DataView in
  let binEd := editor_over scenario_buffer in
  let this1 := with_elements DataView this0 [Str "A"; Str "BC"] in
  elements_ this0 = [] /\
  1 <= count_ this0 /\
  loadStrings this0 binEd = (this1, Ok (seek 9 binEd)) /\
  exists this2,
    loadStrings this1 (seek 9 binEd) = (this2, Ok (seek 9 binEd)) /\
    elements_ this2 = elements_ this1 ++ elements_ this1 /\
    Z.of_nat (List.length (elements_ this2)) = 2 * count_ this0.
Proof.
  cbv zeta. split; [reflexivity |]. split; [vm_compute; discriminate |].
  split; [reflexivity |].
  destruct (loadStrings_twice DataView (scenario_index DataView)
              (editor_over scenario_buffer)
              (with_elements DataView (scenario_index DataView)
                 [Str "A"; Str "BC"])
              (seek 9 (editor_over scenario_buffer))
              (seek 9 (editor_over scenario_buffer))
              eq_refl ltac:(vm_compute; discriminate) eq_refl eq_refl eq_refl)
    as (this2 & Hload & Hel & _ & Hlen & _).
  exists this2. auto.
Defined.

Lemma index_round_trip_witness :
  let es := [[x41]; [x42; x43]] in
  let binEd := editor_over scenario_buffer in
  (1 <= 1 <= 4)%nat /\
  Z.of_nat (List.length es) <= 65535 /\
  1 + Z.of_nat (List.length (List.concat es)) < 256 ^ Z.of_nat 1 /\
  readable binEd 0 (Z.of_nat (List.length (encode_INDEX 1 es))) = true /\
  peek binEd 0 (Z.of_nat (List.length (encode_INDEX 1 es)))
  = encode_INDEX 1 es /\
  exists this binEd' this' binEd'',
    new_CffIndex DataView "String" 0 TYPE_STRING false binEd
    = Ok (this, binEd') /\
    count_ this = Z.of_nat (List.length es) /\
    getLength this = Z.of_nat (List.length (encode_INDEX 1 es)) /\
    loadStrings this binEd' = (this', Ok binEd'') /\
    List.length (elements_ this') = List.length es /\
    forall i e, nth_error es i = Some e ->
      getElement this' (Z.of_nat i) = Ok (Str (string_of_list_byte e)).
Proof.
  cbv zeta.
  split; [split; [apply le_n | repeat constructor] |].
  split; [vm_compute; discriminate |].
  split; [reflexivity |].
  split; [reflexivity |].
  split; [reflexivity |].
  apply (index_round_trip DataView 1 [[x41]; [x42; x43]] "String" 0
           TYPE_STRING false (editor_over scenario_buffer)).
  - split; [apply le_n | repeat constructor].
  - vm_compute; discriminate.
  - reflexivity.
  - reflexivity.
  - reflexivity.
Defined.

(** ** The header of a codepoint response *)

Lemma DataView_over_slice (bytes : list byte) pos len :
  0 <= pos -> 0 <= len ->
  DataView_slice (DataView_over bytes) pos len
  = if pos + len <=? Z.of_nat (List.length bytes)
    then Ok (firstn (Z.to_nat len) (skipn (Z.to_nat pos) bytes))
    else Throw TruncatedBuffer.
Proof.
  intros Hpos Hlen. unfold DataView_slice, contains, slice, DataView_over.
  cbn [buffer byteOffset byteLength].
  destruct (Z.leb_spec 0 pos); [| lia].
  destruct (Z.leb_spec 0 len); [| lia].
  destruct (Z.leb_spec (pos + len) (Z.of_nat (List.length bytes)));
    cbn [andb]; [| reflexivity].
  destruct (Z.leb_spec (0 + Z.of_nat (List.length bytes))
              (Z.of_nat (List.length bytes))); [| lia].
  reflexivity.
Qed.

Lemma parseCodepointHeader_three {Response : Type}
    (GlyphBundleResponse :
       string -> string -> Z -> Z -> Z -> list byte -> Response)
    b0 b1 b2 rest :
  parseCodepointHeader_ GlyphBundleResponse (b0 :: b1 :: b2 :: rest)
  = Ok (GlyphBundleResponse "1.0" "" (byte_value b0 * 256 + byte_value b1)
          (byte_value b2) 3 (b0 :: b1 :: b2 :: rest)).
Proof.
  unfold parseCodepointHeader_, DataView_getUint16, DataView_getUint8.
  cbv zeta. rewrite !DataView_over_slice by lia.
  cbn [List.length].
  destruct (Z.leb_spec (0 + 2) (Z.of_nat (S (S (S (List.length rest))))));
    [| lia].
  destruct (Z.leb_spec (0 + 2 + 1) (Z.of_nat (S (S (S (List.length rest))))));
    [| lia].
  cbn. do 2 f_equal; lia.
Qed.

(** X12: [parseCodepointHeader_] throws on a response of fewer than three
    bytes. On any longer one it returns the response object built from
    version "1.0", an empty signature, the big-endian 16-bit count of the
    first two bytes, the flags of the third byte, offset 3 and the
    response itself, unchanged. *)
Theorem parseCodepointHeader_bounds {Response : Type}
    (GlyphBundleResponse :
       string -> string -> Z -> Z -> Z -> list byte -> Response)
    (glyphData : list byte) :
  ((List.length glyphData < 3)%nat ->
   parseCodepointHeader_ GlyphBundleResponse glyphData
   = Throw TruncatedBuffer) /\
  ((3 <= List.length glyphData)%nat ->
   exists b0 b1 b2 rest,
     glyphData = b0 :: b1 :: b2 :: rest /\
     parseCodepointHeader_ GlyphBundleResponse glyphData
     = Ok (GlyphBundleResponse "1.0" "" (byte_value b0 * 256 + byte_value b1)
             (byte_value b2) 3 glyphData) /\
     0 <= byte_value b0 * 256 + byte_value b1 <= 65535 /\
     0 <= byte_value b2 <= 255).
Proof.
  split.
  - intros Hshort.
    unfold parseCodepointHeader_, DataView_getUint16, DataView_getUint8.
    cbv zeta. rewrite !DataView_over_slice by lia.
    destruct (Z.leb_spec (0 + 2) (Z.of_nat (List.length glyphData)));
      [| reflexivity].
    destruct (Z.leb_spec (0 + 2 + 1) (Z.of_nat (List.length glyphData)));
      [lia | reflexivity].
  - intros Hlong.
    destruct glyphData as [| b0 [| b1 [| b2 rest]]];
      cbn [List.length] in Hlong; try lia.
    exists b0, b1, b2, rest. split; [reflexivity |].
    split; [apply parseCodepointHeader_three |].
    pose proof (byte_value_range b0). pose proof (byte_value_range b1).
    pose proof (byte_value_range b2). lia.
Qed.

(** X13: a response that begins with a count below 65536 in two bytes,
    big-endian, and flags below 256 in one byte is parsed back to that
    count and those flags, and the offset 3 of the result is where the
    payload starts. *)
Theorem parseCodepointHeader_round_trip {Response : Type}
    (GlyphBundleResponse :
       string -> string -> Z -> Z -> Z -> list byte -> Response)
    (count flags : Z) (payload : list byte) :
  0 <= count <= 65535 ->
  0 <= flags <= 255 ->
  let glyphData := be_encode 2 count ++ be_encode 1 flags ++ payload in
  parseCodepointHeader_ GlyphBundleResponse glyphData
  = Ok (GlyphBundleResponse "1.0" "" count flags 3 glyphData) /\
  skipn 3 glyphData = payload.
Proof.
  intros Hc Hf glyphData. unfold glyphData.
  cbn [be_encode app skipn].
  rewrite parseCodepointHeader_three, !byte_value_of_Z.
  split; [| reflexivity].
  pose proof (Z.div_mod count 256 ltac:(lia)) as Hdm.
  pose proof (Z.mod_pos_bound count 256 ltac:(lia)) as Hm.
  assert (Hq : 0 <= count / 256 < 256).
  { split; [apply Z.div_pos; lia | apply Z.div_lt_upper_bound; lia]. }
  rewrite (Z.mod_small (count / 256) 256 Hq).
  rewrite (Z.mod_small flags 256) by lia.
  do 2 f_equal. lia.
Qed.

(** ** The further properties on the sample buffers *)

Lemma construction_returns_iff_witness :
  let binEd := editor_over scenario_buffer in
  (be_decode (peek binEd 0 2) = 0
   \/ 1 <= be_decode (peek binEd (0 + 2) 1) <= 4) /\
  readable binEd 0 2 = true /\
  readable binEd 0
    (3 + (be_decode (peek binEd 0 2) + 1) * be_decode (peek binEd (0 + 2) 1))
  = true /\
  exists this binEd',
    new_CffIndex DataView "String" 0 TYPE_STRING false binEd
    = Ok (this, binEd').
Proof.
  cbv zeta.
  assert (Hvalid : be_decode (peek (editor_over scenario_buffer) 0 2) = 0
                   \/ 1 <= be_decode (peek (editor_over scenario_buffer)
                                        (0 + 2) 1) <= 4)
    by (right; vm_compute; split; discriminate).
  split; [exact Hvalid |].
  split; [reflexivity |].
  split; [reflexivity |].
  apply (proj2 (proj1 (construction_returns_iff DataView "String" 0
                         TYPE_STRING false (editor_over scenario_buffer)
                         Hvalid))).
  split; [reflexivity |]. right. reflexivity.
Defined.

Lemma construction_result_witness :
  let binEd := editor_over scenario_buffer in
  let this := scenario_index DataView in
  new_CffIndex DataView "String" 0 TYPE_STRING false binEd
  = Ok (this, seek 6 binEd) /\
  elements_ this = [] /\
  (count_ this <> 0 -> offset (seek 6 binEd) = dataStart DataView this).
Proof.
  cbv zeta. split; [reflexivity |].
  destruct (construction_result DataView "String" 0 TYPE_STRING false
              (editor_over scenario_buffer) (scenario_index DataView)
              (seek 6 (editor_over scenario_buffer)) eq_refl)
    as (_ & _ & _ & _ & _ & Hnil & _ & _ & _ & Hstart).
  split; assumption.
Defined.

Lemma IndexTable_bounds_witness :
  let this := scenario_index DataView in
  IndexTable DataView sample_new_CffDict sample_setOperators sample_init
    false this /\
  offSize_ this <= 4 /\
  0 <= count_ this <= 65535 /\
  2 <= getLength this /\
  getLength this < 2 + 1 + 65536 * 4 + 2 ^ 32.
Proof.
  cbv zeta. split; [exact scenario_index_is_IndexTable |].
  split; [vm_compute; discriminate |].
  destruct (IndexTable_bounds DataView sample_new_CffDict sample_setOperators
              sample_init false _ scenario_index_is_IndexTable)
    as (Hc & _ & _ & Hl & Hsmall).
  split; [exact Hc |]. split; [exact Hl |].
  exact (proj2 (Hsmall ltac:(vm_compute; discriminate))).
Defined.

Lemma loadStrings_returns_witness :
  let this := scenario_index DataView in
  let binEd := editor_over scenario_buffer in
  IndexTable DataView sample_new_CffDict sample_setOperators sample_init
    false this /\
  1 <= count_ this /\
  (forall k, 0 <= k < count_ this ->
     offset_at this k <= offset_at this (k + 1)) /\
  readable binEd (dataStart DataView this)
    (offset_at this (count_ this) - offset_at this 0) = true /\
  exists this' binEd', loadStrings this binEd = (this', Ok binEd').
Proof.
  cbv zeta.
  assert (Hmono : forall k, 0 <= k < count_ (scenario_index DataView) ->
            offset_at (scenario_index DataView) k
            <= offset_at (scenario_index DataView) (k + 1)).
  { intros k Hk. change (count_ (scenario_index DataView)) with 2 in Hk.
    assert (Hcases : k = 0 \/ k = 1) by lia.
    destruct Hcases as [-> | ->]; vm_compute; discriminate. }
  split; [exact scenario_index_is_IndexTable |].
  split; [vm_compute; discriminate |].
  split; [exact Hmono |].
  split; [reflexivity |].
  apply (loadStrings_returns DataView sample_new_CffDict sample_setOperators
           sample_init false _ _ scenario_index_is_IndexTable).
  - vm_compute; discriminate.
  - exact Hmono.
  - reflexivity.
Defined.

Lemma loadStrings_throws_keeps_prefix_witness :
  let this := nonempty_index DataView "String" 0 TYPE_STRING false 2 1
                [1; 2; 9] in
  let binEd := editor_over truncated_buffer in
  IndexTable DataView sample_new_CffDict sample_setOperators sample_init
    false this /\
  (forall k, 0 <= k < count_ this ->
     offset_at this k <= offset_at this (k + 1)) /\
  loadStrings this binEd
  = (with_elements DataView this [Str "A"], Throw TruncatedBuffer) /\
  exists k,
    0 <= Z.of_nat k < count_ this /\
    readable binEd
      (dataStart DataView this - offset_at this 0
       + offset_at this (Z.of_nat k))
      (offset_at this (Z.of_nat k + 1) - offset_at this (Z.of_nat k))
    = false /\
    List.length (elements_ (with_elements DataView this [Str "A"]))
    = (List.length (elements_ this) + k)%nat.
Proof.
  cbv zeta.
  assert (Hthis : IndexTable DataView sample_new_CffDict sample_setOperators
                    sample_init false
                    (nonempty_index DataView "String" 0 TYPE_STRING false
                       2 1 [1; 2; 9])).
  { apply (IndexTable_new DataView sample_new_CffDict sample_setOperators
             sample_init false "String" 0 TYPE_STRING false
             (editor_over truncated_buffer) _
             (seek 6 (editor_over truncated_buffer))).
    reflexivity. }
  assert (Hmono : forall k,
            0 <= k < count_ (nonempty_index DataView "String" 0 TYPE_STRING
                               false 2 1 [1; 2; 9]) ->
            offset_at (nonempty_index DataView "String" 0 TYPE_STRING
                         false 2 1 [1; 2; 9]) k
            <= offset_at (nonempty_index DataView "String" 0 TYPE_STRING
                            false 2 1 [1; 2; 9]) (k + 1)).
  { intros k Hk.
    change (count_ (nonempty_index DataView "String" 0 TYPE_STRING
                      false 2 1 [1; 2; 9])) with 2 in Hk.
    assert (Hcases : k = 0 \/ k = 1) by lia.
    destruct Hcases as [-> | ->]; vm_compute; discriminate. }
  split; [exact Hthis |]. split; [exact Hmono |]. split; [reflexivity |].
  destruct (loadStrings_throws_keeps_prefix DataView sample_new_CffDict
              sample_setOperators sample_init false
              (nonempty_index DataView "String" 0 TYPE_STRING false 2 1
                 [1; 2; 9])
              (editor_over truncated_buffer)
              (with_elements DataView
                 (nonempty_index DataView "String" 0 TYPE_STRING false 2 1
                    [1; 2; 9]) [Str "A"])
              TruncatedBuffer Hthis Hmono eq_refl)
    as (k & Hk & _ & Hr & _ & Hlen & _).
  exists k. split; [exact Hk |]. split; [exact Hr | exact Hlen].
Defined.

Lemma loadStrings_tiles_data_witness :
  let this := scenario_index DataView in
  let binEd := editor_over scenario_buffer in
  let this' := with_elements DataView this [Str "A"; Str "BC"] in
  IndexTable DataView sample_new_CffDict sample_setOperators sample_init
    false this /\
  (forall k, 0 <= k < count_ this ->
     offset_at this k <= offset_at this (k + 1)) /\
  loadStrings this binEd = (this', Ok (seek 9 binEd)) /\
  List.concat (map (loaded_bytes DataView this binEd
                      (dataStart DataView this - offset_at this 0))
                 (indices (Z.to_nat (count_ this)) 0))
  = peek binEd (dataStart DataView this)
      (offset_at this (count_ this) - offset_at this 0) /\
  peek binEd (dataStart DataView this)
    (offset_at this (count_ this) - offset_at this 0) = [x41; x42; x43].
Proof.
  cbv zeta. split; [exact scenario_index_is_IndexTable |].
  split; [exact scenario_offsets_do_not_decrease |].
  split; [reflexivity |].
  destruct (loadStrings_tiles_data DataView sample_new_CffDict
              sample_setOperators sample_init false
              (scenario_index DataView)
              (editor_over scenario_buffer)
              (with_elements DataView (scenario_index DataView)
                 [Str "A"; Str "BC"])
              (seek 9 (editor_over scenario_buffer))
              scenario_index_is_IndexTable
              scenario_offsets_do_not_decrease eq_refl)
    as (new & _ & _ & _ & Hconcat).
  split; [exact Hconcat | reflexivity].
Defined.

Lemma loadDict_returns_witness :
  let this := scenario_index DataView in
  let binEd := editor_over scenario_buffer in
  let view0 := {| buffer := scenario_buffer; byteOffset := 6;
                  byteLength := 1 |} in
  let view1 := {| buffer := scenario_buffer; byteOffset := 6;
                  byteLength := 2 |} in
  loadDict DataView sample_new_CffDict sample_setOperators sample_init false
    this binEd
  = (with_elements DataView this [Dict view0; Dict view1],
     Ok (seek 6 binEd)) /\
  seek 6 binEd = seek (dataStart DataView this) binEd /\
  dict_view DataView this binEd 1 = view1.
Proof.
  cbv zeta. split; [reflexivity |].
  destruct (loadDict_returns DataView sample_new_CffDict sample_setOperators
              sample_init false (scenario_index DataView)
              (editor_over scenario_buffer)
              (with_elements DataView (scenario_index DataView)
                 [Dict {| buffer := scenario_buffer; byteOffset := 6;
                          byteLength := 1 |};
                  Dict {| buffer := scenario_buffer; byteOffset := 6;
                          byteLength := 2 |}])
              (seek 6 (editor_over scenario_buffer)) eq_refl)
    as (Hcursor & _).
  split; [exact Hcursor | reflexivity].
Defined.

Lemma loadDict_throws_witness :
  let this := nonempty_index DataView "Top" 0 TYPE_DICT true 2 1 [1; 3; 3] in
  let binEd := editor_over dict_buffer in
  let view0 := {| buffer := dict_buffer; byteOffset := 6;
                  byteLength := 2 |} in
  IndexTable DataView sample_new_CffDict sample_setOperators strict_init
    false this /\
  loadDict DataView sample_new_CffDict sample_setOperators strict_init false
    this binEd
  = (with_elements DataView this [Dict view0], Throw MalformedDict) /\
  exists dicts,
    Z.of_nat (List.length dicts) < count_ this /\
    with_elements DataView this [Dict view0]
    = with_elements DataView this (elements_ this ++ map Dict dicts).
Proof.
  cbv zeta.
  assert (Hthis : IndexTable DataView sample_new_CffDict sample_setOperators
                    strict_init false
                    (nonempty_index DataView "Top" 0 TYPE_DICT true 2 1
                       [1; 3; 3])).
  { apply (IndexTable_new DataView sample_new_CffDict sample_setOperators
             strict_init false "Top" 0 TYPE_DICT true
             (editor_over dict_buffer) _ (seek 6 (editor_over dict_buffer))).
    reflexivity. }
  split; [exact Hthis |]. split; [reflexivity |].
  destruct (proj1 (loadDict_throws DataView sample_new_CffDict
                     sample_setOperators strict_init false
                     (nonempty_index DataView "Top" 0 TYPE_DICT true 2 1
                        [1; 3; 3])
                     (editor_over dict_buffer)
                     (with_elements DataView
                        (nonempty_index DataView "Top" 0 TYPE_DICT true 2 1
                           [1; 3; 3])
                        [Dict {| buffer := dict_buffer; byteOffset := 6;
                                 byteLength := 2 |}])
                     MalformedDict Hthis) eq_refl)
    as (dicts & Hk & Hel & _).
  exists dicts. split; assumption.
Defined.

Lemma loadDict_views_over_encoding_witness :
  let es := [[x41]; [x42; x43]] in
  let binEd := editor_over scenario_buffer in
  (1 <= 1 <= 4)%nat /\
  1 <= Z.of_nat (List.length es) <= 65535 /\
  1 + Z.of_nat (List.length (List.concat es)) < 256 ^ Z.of_nat 1 /\
  readable binEd 0 (Z.of_nat (List.length (encode_INDEX 1 es))) = true /\
  peek binEd 0 (Z.of_nat (List.length (encode_INDEX 1 es)))
  = encode_INDEX 1 es /\
  exists this binEd',
    new_CffIndex DataView "Top" 0 TYPE_DICT true binEd = Ok (this, binEd') /\
    forall i e, nth_error es i = Some e ->
      DataView_bytes (dict_view DataView this binEd' (Z.of_nat i))
      = Ok (firstn (List.length e) (List.concat es)).
Proof.
  cbv zeta.
  split; [split; [apply le_n | repeat constructor] |].
  split; [vm_compute; split; discriminate |].
  split; [reflexivity |].
  split; [reflexivity |].
  split; [reflexivity |].
  destruct (loadDict_views_over_encoding DataView sample_new_CffDict
              sample_setOperators sample_init false 1 [[x41]; [x42; x43]]
              "Top" 0 TYPE_DICT true (editor_over scenario_buffer)
              (conj (le_n 1) (le_S _ _ (le_S _ _ (le_S _ _ (le_n 1)))))
              ltac:(vm_compute; split; discriminate)
              eq_refl eq_refl eq_refl)
    as (this & binEd' & Hnew & Hviews & _).
  exists this, binEd'. split; [exact Hnew |].
  intros i e He. exact (proj1 (proj2 (Hviews i e He))).
Defined.

Lemma parseCodepointHeader_bounds_witness :
  (List.length [x00; x02] < 3)%nat /\
  parseCodepointHeader_ sample_GlyphBundleResponse [x00; x02]
  = Throw TruncatedBuffer /\
  (3 <= List.length [x01; x02; x07; xff])%nat /\
  parseCodepointHeader_ sample_GlyphBundleResponse [x01; x02; x07; xff]
  = Ok ("1.0", "", 258, 7, 3, [x01; x02; x07; xff]).
Proof.
  split; [repeat constructor |].
  split.
  - apply (proj1 (parseCodepointHeader_bounds sample_GlyphBundleResponse
                    [x00; x02])).
    repeat constructor.
  - split; [repeat constructor |].
    destruct (proj2 (parseCodepointHeader_bounds sample_GlyphBundleResponse
                       [x01; x02; x07; xff]) ltac:(repeat constructor))
      as (b0 & b1 & b2 & rest & Heq & Hparse & _).
    injection Heq as <- <- <- <-. exact Hparse.
Defined.

Lemma parseCodepointHeader_round_trip_witness :
  0 <= 258 <= 65535 /\
  0 <= 7 <= 255 /\
  parseCodepointHeader_ sample_GlyphBundleResponse
    (be_encode 2 258 ++ be_encode 1 7 ++ [xff])
  = Ok ("1.0", "", 258, 7, 3, be_encode 2 258 ++ be_encode 1 7 ++ [xff]) /\
  skipn 3 (be_encode 2 258 ++ be_encode 1 7 ++ [xff]) = [xff].
Proof.
  split; [vm_compute; split; discriminate |].
  split; [vm_compute; split; discriminate |].
  apply (parseCodepointHeader_round_trip sample_GlyphBundleResponse 258 7
           [xff]).
  - vm_compute; split; discriminate.
  - vm_compute; split; discriminate.
Defined.
